(** * AliComms application shell: onboarding splash and embedded browser pane

    A shallow embedding of [src/app/index.tsx].  The two React components
    of that file are modelled as state machines driven by the events the
    platform delivers to them (promise settlement, timers, presses,
    engine callbacks), and their [return (...)] blocks as functions from
    component state to an element tree. *)

From Stdlib Require Import String List NArith Bool Lia DecimalString.
From Stdlib Require Import DecimalPos DecimalN.
From stdpp Require Import base option gmap strings.
Import ListNotations.

Local Open Scope string_scope.
Local Open Scope list_scope.

(** ** Element trees

    The JSX the components return.  Styles are kept by the name they
    have in [styles]; a style array is a list of names. *)

(** What a [TouchableOpacity] is bound to: the two values the source
    passes as [onPress].  [HandleNextFAQ c] is the [handleNextFAQ]
    closure made by the render in which [currentFAQ] was [c]. *)
Inductive Handler :=
| HandleNextFAQ (captured : nat)
| OnDoneProp.

#[warnings="-register-all"]
Inductive Element :=
| View (style : list string) (children : list Element)
| SafeAreaView (style : list string) (children : list Element)
| LinearGradient (colors : list string) (children : list Element)
| AnimatedView (style : list string) (children : list Element)
| Text (style : list string) (content : string)
| ActivityIndicator (size color : string)
| Image (source : string)
| TouchableOpacity (onPress : Handler) (children : list Element)
| WebView (uri : string) (shown : Element)
| NativePage.

(** Observations on a tree, in document order. *)
Fixpoint texts (e : Element) : list string :=
  let fix go (es : list Element) : list string :=
    match es with
    | [] => []
    | x :: r => texts x ++ go r
    end in
  match e with
  | View _ cs | SafeAreaView _ cs | LinearGradient _ cs
  | AnimatedView _ cs | TouchableOpacity _ cs => go cs
  | Text _ s => [s]
  | WebView _ shown => texts shown
  | ActivityIndicator _ _ | Image _ | NativePage => []
  end.

Fixpoint images (e : Element) : list string :=
  let fix go (es : list Element) : list string :=
    match es with
    | [] => []
    | x :: r => images x ++ go r
    end in
  match e with
  | View _ cs | SafeAreaView _ cs | LinearGradient _ cs
  | AnimatedView _ cs | TouchableOpacity _ cs => go cs
  | Image src => [src]
  | WebView _ shown => images shown
  | Text _ _ | ActivityIndicator _ _ | NativePage => []
  end.

Fixpoint handlers (e : Element) : list Handler :=
  let fix go (es : list Element) : list Handler :=
    match es with
    | [] => []
    | x :: r => handlers x ++ go r
    end in
  match e with
  | TouchableOpacity h cs => h :: go cs
  | View _ cs | SafeAreaView _ cs | LinearGradient _ cs
  | AnimatedView _ cs => go cs
  | WebView _ shown => handlers shown
  | Text _ _ | ActivityIndicator _ _ | Image _ | NativePage => []
  end.

(** Every subtree carrying a given style name, in document order. *)
Definition has_style (name : string) (style : list string) : bool :=
  existsb (String.eqb name) style.

Fixpoint styled (name : string) (e : Element) : list Element :=
  let fix go (es : list Element) : list Element :=
    match es with
    | [] => []
    | x :: r => styled name x ++ go r
    end in
  match e with
  | View st cs | SafeAreaView st cs | AnimatedView st cs =>
      (if has_style name st then [e] else []) ++ go cs
  | LinearGradient _ cs | TouchableOpacity _ cs => go cs
  | Text st _ => if has_style name st then [e] else []
  | WebView _ shown => styled name shown
  | ActivityIndicator _ _ | Image _ | NativePage => []
  end.

(** The [WebView] elements of a tree (the embedded browser views). *)
Fixpoint webviews (e : Element) : list Element :=
  let fix go (es : list Element) : list Element :=
    match es with
    | [] => []
    | x :: r => webviews x ++ go r
    end in
  match e with
  | WebView _ _ => [e]
  | View _ cs | SafeAreaView _ cs | LinearGradient _ cs
  | AnimatedView _ cs | TouchableOpacity _ cs => go cs
  | Text _ _ | ActivityIndicator _ _ | Image _ | NativePage => []
  end.

(** JavaScript truthiness of a [string | null]: [null] and the empty
    string are falsy. *)
Definition truthy (v : option string) : bool :=
  match v with
  | Some s => negb (String.eqb s "")
  | None => false
  end.

(** Template-literal rendering of a non-negative integer. *)
Definition show_number (n : N) : string :=
  NilZero.string_of_uint (N.to_uint n).

(** ** FAQ entries *)

Record FaqEntry := { question : string; answer : string }.

Definition FAQs : list FaqEntry :=
  [ {| question := "What is AliComms?";
       answer := "Is a modern interactive e-commerce platform." |};
    {| question := "Are your products genuine?";
       answer := "Yes, we only sell genuine products from verified suppliers." |};
    {| question := "Which payment methods do you accept?";
       answer := "We accept all major credit and debit cards, as well as bank transfers, USSD, and mobile money." |} ].

(** ** WebViewComponent (index.tsx, lines 36-83) *)

Module Pane.

(** What the [WebView] shows inside its own frame: the library's
    [viewState].  The library is an outside capability; the component
    only hands it [renderLoading] and [renderError] to draw with. *)
Inductive Engine :=
| Loading
| Page
| RenderFailed (errorName : string).

Record State := mk {
  errorMessage : option string;   (* useState<string | null>(null) *)
  engine : Engine;
  console : list string;          (* console.warn lines, oldest first *)
  reporting : bool                (* onError has just been called for a load
                                     error whose error view is still to be
                                     drawn *)
}.

(** What the library does with the component's props.  It handles a
    native load error in two moves: it calls [onError] with the event,
    then draws [renderError] with the event's error domain; these are
    [LoadError] and the [RenderError] that follows it.  [renderError] is
    called in no other situation.  An HTTP error only calls
    [onHttpError]; a finished load puts the page in the frame. *)
Inductive Event :=
| LoadEnd
| LoadError (description : string)      (* onError *)
| HttpError (statusCode : N)            (* onHttpError *)
| RenderError (errorName : string).     (* renderError, for the load error
                                           just reported *)

Definition initial : State :=
  {| errorMessage := None; engine := Loading; console := [];
     reporting := false |}.

Definition setErrorMessage (m : string) (s : State) : State :=
  {| errorMessage := Some m; engine := engine s; console := console s;
     reporting := reporting s |}.

Definition warn (line : string) (s : State) : State :=
  {| errorMessage := errorMessage s; engine := engine s;
     console := console s ++ [line]; reporting := reporting s |}.

Definition handleLoadError (description : string) (s : State) : State :=
  setErrorMessage ("Load Error: " +:+ description)
    (warn ("WebView error: " +:+ description) s).

Definition onHttpError (statusCode : N) (s : State) : State :=
  setErrorMessage ("HTTP Error: " +:+ show_number statusCode)
    (warn ("HTTP error: " +:+ show_number statusCode) s).

(** The library's side of an event: what it puts in the frame and
    whether an error view is owed. *)
Definition library (g : Engine) (owed : bool) (s : State) : State :=
  {| errorMessage := errorMessage s; engine := g; console := console s;
     reporting := owed |}.

Definition step (e : Event) (s : State) : State :=
  match e with
  | LoadEnd => library Page false s
  | LoadError d => library (engine s) true (handleLoadError d s)
  | HttpError c => library (engine s) false (onHttpError c s)
  | RenderError n =>
      if reporting s then library (RenderFailed n) false s else s
  end.

Definition run (es : list Event) (s : State) : State :=
  fold_left (fun s e => step e s) es s.

(** The message an error event puts in [errorMessage]. *)
Definition message (e : Event) : option string :=
  match e with
  | LoadError d => Some ("Load Error: " +:+ d)
  | HttpError c => Some ("HTTP Error: " +:+ show_number c)
  | LoadEnd | RenderError _ => None
  end.

(** Load and HTTP errors, as opposed to the other engine events. *)
Definition isError (e : Event) : bool :=
  match message e with Some _ => true | None => false end.

Definition renderError (errorName : string) : Element :=
  View ["errorContainer"]
    [Text ["errorText"] ("WebView Error: " +:+ errorName)].

Definition renderLoading : Element :=
  View ["loading"] [Text [] "Loading..."].

Definition shown (g : Engine) : Element :=
  match g with
  | Loading => renderLoading
  | Page => NativePage
  | RenderFailed n => renderError n
  end.

Definition render (s : State) : Element :=
  SafeAreaView ["container"]
    [View ["webviewContainer"]
       (WebView "https://alicomms.com/" (shown (engine s))
        :: (if truthy (errorMessage s)
            then match errorMessage s with
                 | Some m => [View ["errorBanner"]
                                [Text ["errorBannerText"] m]]
                 | None => []
                 end
            else []))].

(** The banners on screen, by their text. *)
Definition banners (s : State) : list string :=
  flat_map texts (styled "errorBanner" (render s)).

End Pane.

(** ** SplashScreen (index.tsx, lines 85-225) *)

Module Splash.

(** The storage key the component reads and writes. *)
Definition key : string := "hasVisited".

(** Callbacks waiting in the timer queue: the [onDone] prop handed to
    [setTimeout], and the completion callback of an [Animated.sequence]
    started by the [handleNextFAQ] closure in which [currentFAQ] was
    [captured], running on the [Animated.Value] [value] that closure
    holds as [fadeAnim]. *)
Inductive Callback :=
| CallOnDone
| AdvanceFrom (captured : nat) (value : nat).

Record Timer := { id : nat; due : N; callback : Callback }.

(** What the component does to the outside, in order. *)
Inductive Effect :=
| ConsoleError (line : string)
| OnDone
| SetTimeout (timer : nat) (delay : N)
| ClearTimeout (timer : nat)
| AnimatedParallel (duration : N)
| AnimatedSequence (steps : list (N * N)).   (* toValue, duration *)

(** Where the body of [checkFirstTime] is suspended. *)
Inductive Suspended :=
| AwaitGetItem
| AwaitSetItem
| Returned.

Record State := mk {
  isFirstTime : option bool;          (* useState<boolean | null>(null) *)
  currentFAQ : nat;                   (* useState(0) *)
  mounted : bool;
  suspended : Suspended;
  cleanup : option nat;               (* what the effect returned to React *)
  promiseValue : option nat;          (* what checkFirstTime() resolved with *)
  storage : gmap string string;       (* AsyncStorage *)
  now : N;                            (* milliseconds *)
  timers : list Timer;                (* ordered by due time *)
  nextTimer : nat;
  trace : list Effect;                (* oldest first *)
  fadeAnim : nat                      (* the Animated.Value the memoised
                                         handleNextFAQ closes over *)
}.

Inductive Event :=
| Resolve            (* the pending storage promise resolves *)
| Reject             (* the pending storage promise rejects *)
| Press              (* the user presses the touchable on screen *)
| Elapse (ms : N)
| Unmount.

(** *** Field updates *)

Definition with_isFirstTime (v : option bool) (s : State) : State :=
  mk v (currentFAQ s) (mounted s) (suspended s) (cleanup s) (promiseValue s)
     (storage s) (now s) (timers s) (nextTimer s) (trace s) (fadeAnim s).

Definition with_currentFAQ (v : nat) (s : State) : State :=
  mk (isFirstTime s) v (mounted s) (suspended s) (cleanup s)
     (promiseValue s) (storage s) (now s) (timers s) (nextTimer s) (trace s)
     (fadeAnim s).

Definition with_mounted (v : bool) (s : State) : State :=
  mk (isFirstTime s) (currentFAQ s) v (suspended s) (cleanup s)
     (promiseValue s) (storage s) (now s) (timers s) (nextTimer s) (trace s)
     (fadeAnim s).

Definition with_suspended (v : Suspended) (s : State) : State :=
  mk (isFirstTime s) (currentFAQ s) (mounted s) v (cleanup s)
     (promiseValue s) (storage s) (now s) (timers s) (nextTimer s) (trace s)
     (fadeAnim s).

Definition with_cleanup (v : option nat) (s : State) : State :=
  mk (isFirstTime s) (currentFAQ s) (mounted s) (suspended s) v
     (promiseValue s) (storage s) (now s) (timers s) (nextTimer s) (trace s)
     (fadeAnim s).

Definition with_promiseValue (v : option nat) (s : State) : State :=
  mk (isFirstTime s) (currentFAQ s) (mounted s) (suspended s) (cleanup s) v
     (storage s) (now s) (timers s) (nextTimer s) (trace s) (fadeAnim s).

Definition with_storage (v : gmap string string) (s : State) : State :=
  mk (isFirstTime s) (currentFAQ s) (mounted s) (suspended s) (cleanup s)
     (promiseValue s) v (now s) (timers s) (nextTimer s) (trace s)
     (fadeAnim s).

Definition with_now (v : N) (s : State) : State :=
  mk (isFirstTime s) (currentFAQ s) (mounted s) (suspended s) (cleanup s)
     (promiseValue s) (storage s) v (timers s) (nextTimer s) (trace s)
     (fadeAnim s).

Definition with_timers (v : list Timer) (s : State) : State :=
  mk (isFirstTime s) (currentFAQ s) (mounted s) (suspended s) (cleanup s)
     (promiseValue s) (storage s) (now s) v (nextTimer s) (trace s)
     (fadeAnim s).

Definition with_nextTimer (v : nat) (s : State) : State :=
  mk (isFirstTime s) (currentFAQ s) (mounted s) (suspended s) (cleanup s)
     (promiseValue s) (storage s) (now s) (timers s) v (trace s)
     (fadeAnim s).

Definition with_trace (v : list Effect) (s : State) : State :=
  mk (isFirstTime s) (currentFAQ s) (mounted s) (suspended s) (cleanup s)
     (promiseValue s) (storage s) (now s) (timers s) (nextTimer s) v
     (fadeAnim s).

Definition with_fadeAnim (v : nat) (s : State) : State :=
  mk (isFirstTime s) (currentFAQ s) (mounted s) (suspended s) (cleanup s)
     (promiseValue s) (storage s) (now s) (timers s) (nextTimer s) (trace s)
     v.

Definition emit (e : Effect) (s : State) : State :=
  mk (isFirstTime s) (currentFAQ s) (mounted s) (suspended s) (cleanup s)
     (promiseValue s) (storage s) (now s) (timers s) (nextTimer s)
     (trace s ++ [e]) (fadeAnim s).

(** *** The timer queue *)

Fixpoint enqueue (t : Timer) (q : list Timer) : list Timer :=
  match q with
  | [] => [t]
  | u :: r => if (due u <=? due t)%N then u :: enqueue t r else t :: q
  end.

Definition is_due (t : N) (x : Timer) : bool := (due x <=? t)%N.

Definition setTimeout (cb : Callback) (delay : N) (s : State) : State :=
  let t := {| id := nextTimer s; due := (now s + delay)%N; callback := cb |} in
  emit (SetTimeout (nextTimer s) delay)
    (with_nextTimer (S (nextTimer s)) (with_timers (enqueue t (timers s)) s)).

Definition clearTimeout (timer : nat) (s : State) : State :=
  emit (ClearTimeout timer)
    (with_timers (List.filter (fun x => negb (Nat.eqb (id x) timer)) (timers s)) s).

(** *** State setters and the second effect *)

(** The effect with dependencies [currentFAQ, isFirstTime]: the entry
    animation, started only once the carousel is on. *)
Definition entryAnimation (s : State) : State :=
  match isFirstTime s with
  | Some true => emit (AnimatedParallel 500) s
  | _ => s
  end.

(** A state setter does nothing on an unmounted component and bails
    out when the value is unchanged. *)
Definition setIsFirstTime (b : bool) (s : State) : State :=
  if mounted s then
    match isFirstTime s with
    | Some b' => if Bool.eqb b b' then s
                 else entryAnimation (with_isFirstTime (Some b) s)
    | None => entryAnimation (with_isFirstTime (Some b) s)
    end
  else s.

(** A change of [currentFAQ] re-renders: [useCallback] re-makes
    [handleNextFAQ], which from then on holds the [fadeAnim] made by
    that render, an [Animated.Value] nothing runs on yet. *)
Definition setCurrentFAQ (n : nat) (s : State) : State :=
  if mounted s then
    if Nat.eqb n (currentFAQ s) then s
    else entryAnimation (with_fadeAnim (S (fadeAnim s)) (with_currentFAQ n s))
  else s.

Definition onDone (s : State) : State := emit OnDone s.

(** *** checkFirstTime (lines 92-106), cut at its two [await]s *)

Definition returns (v : option nat) (s : State) : State :=
  with_promiseValue v (with_suspended Returned s).

Definition afterGetItem (hasVisited : option string) (s : State) : State :=
  if truthy hasVisited then
    let timer := nextTimer s in
    returns (Some timer) (setTimeout CallOnDone 3000 s)
  else
    with_suspended AwaitSetItem s.

Definition afterSetItem (s : State) : State :=
  returns None (setIsFirstTime true s).

Definition catch (s : State) : State :=
  returns None
    (onDone (emit (ConsoleError "Error checking first-time visit:") s)).

(** *** handleNextFAQ (lines 128-144) *)

Definition fadeOutIn : list (N * N) := [(0, 300); (1, 300)]%N.

Definition total_duration (steps : list (N * N)) : N :=
  fold_right (fun st acc => (snd st + acc)%N) 0%N steps.

(** What a queued callback does when it runs.  The completion callback
    of a sequence does not look at [finished]. *)
Definition runCallback (cb : Callback) (s : State) : State :=
  match cb with
  | CallOnDone => onDone s
  | AdvanceFrom c _ => setCurrentFAQ ((c + 1) mod length FAQs) s
  end.

(** The sequence of [x] runs on the [Animated.Value] [value]. *)
Definition runsOn (value : nat) (x : Timer) : bool :=
  match callback x with
  | AdvanceFrom _ v => Nat.eqb v value
  | CallOnDone => false
  end.

(** [Animated.sequence([...]).start(cb)] on the closure's [fadeAnim]:
    starting a timing on an [Animated.Value] stops the animation that
    is running on it, and a stopped sequence calls its completion
    callback at once; the new sequence then completes after the two
    timings. *)
Definition handleNextFAQ (captured : nat) (s : State) : State :=
  let value := fadeAnim s in
  let stopped := List.filter (runsOn value) (timers s) in
  let others := List.filter (fun x => negb (runsOn value x)) (timers s) in
  let s1 :=
    fold_left (fun s x => runCallback (callback x) s) stopped
      (with_timers others (emit (AnimatedSequence fadeOutIn) s)) in
  let t := {| id := nextTimer s;
              due := (now s + total_duration fadeOutIn)%N;
              callback := AdvanceFrom captured value |} in
  with_nextTimer (S (nextTimer s)) (with_timers (enqueue t (timers s1)) s1).

Definition invoke (h : Handler) (s : State) : State :=
  match h with
  | HandleNextFAQ c => handleNextFAQ c s
  | OnDoneProp => onDone s
  end.

(** *** Rendering (lines 146-224) *)

Definition loadingView : Element :=
  View ["loadingContainer"] [ActivityIndicator "large" "#000"].

Definition welcomeBackView : Element :=
  SafeAreaView ["container"]
    [LinearGradient ["#4c669f"; "#3b5998"; "#192f6a"]
       [View ["welcomeContent"]
          [Image "../assets/images/loader.gif";
           Text ["welcomeTitle"] "Welcome Back!";
           Text ["welcomeSubtitle"] "Redirecting to AliComms..."]]].

Definition progressDot (current index : nat) : Element :=
  View ("progressDot" :: if Nat.eqb current index then ["activeDot"] else []) [].

Definition carouselView (current : nat) (faq : FaqEntry) : Element :=
  SafeAreaView ["container"]
    [LinearGradient ["#dc3545"; "#dc3545"; "#dc3545"]
       [AnimatedView ["splashContent"]
          [View ["logoContainer"] [Text ["logo"] "AliComms"];
           View ["faqContainer"]
             [Text ["faqQuestion"] (question faq);
              Text ["faqAnswer"] (answer faq)];
           View ["progressContainer"]
             (imap (fun index _ => progressDot current index) FAQs);
           TouchableOpacity
             (if (current <? length FAQs - 1)%nat
              then HandleNextFAQ current else OnDoneProp)
             [Text ["buttonText"]
                (if (current <? length FAQs - 1)%nat
                 then "Next" else "Get Started")]]]].

(** [None] is the [TypeError] of reading [.question] off an index
    outside [FAQs]. *)
Definition render (s : State) : option Element :=
  match isFirstTime s with
  | None => Some loadingView
  | Some false => Some welcomeBackView
  | Some true =>
      faq ← FAQs !! currentFAQ s;
      Some (carouselView (currentFAQ s) faq)
  end.

(** The handler a press reaches: the touchable of the tree on screen. *)
Definition pressed (s : State) : option Handler :=
  if mounted s then
    tree ← render s; head (handlers tree)
  else None.

(** *** Mounting, events *)

(** The first effect has run: [checkFirstTime()] is called and is
    waiting on [getItem]; the effect body has no [return], so React
    holds no cleanup.  The [onDone] prop keeps its identity for the
    life of the component, as under [App], whose only re-render is the
    one that removes the splash. *)
Definition mount (disk : gmap string string) : State :=
  {| isFirstTime := None; currentFAQ := 0; mounted := true;
     suspended := AwaitGetItem; cleanup := None; promiseValue := None;
     storage := disk; now := 0%N; timers := []; nextTimer := 0;
     trace := []; fadeAnim := 0 |}.

Definition unmount (s : State) : State :=
  if mounted s then
    with_mounted false
      (match cleanup s with
       | Some timer => clearTimeout timer s
       | None => s
       end)
  else s.

Definition elapse (ms : N) (s : State) : State :=
  let t := (now s + ms)%N in
  let ready := List.filter (is_due t) (timers s) in
  let waiting := List.filter (fun x => negb (is_due t x)) (timers s) in
  fold_left (fun s x => runCallback (callback x) s) ready
    (with_now t (with_timers waiting s)).

Definition step (e : Event) (s : State) : State :=
  match e with
  | Resolve =>
      match suspended s with
      | AwaitGetItem => afterGetItem (storage s !! key) s
      | AwaitSetItem =>
          afterSetItem (with_storage (<[key := "true"]> (storage s)) s)
      | Returned => s
      end
  | Reject =>
      match suspended s with
      | Returned => s
      | _ => catch s
      end
  | Press =>
      match pressed s with
      | Some h => invoke h s
      | None => s
      end
  | Elapse ms => elapse ms s
  | Unmount => unmount s
  end.

Definition run (es : list Event) (s : State) : State :=
  fold_left (fun s e => step e s) es s.

(** *** Observations *)

Fixpoint calls (tr : list Effect) : nat :=
  match tr with
  | [] => 0
  | OnDone :: r => S (calls r)
  | _ :: r => calls r
  end.

(** How many times [onDone] has been invoked so far. *)
Definition onDoneCount (s : State) : nat := calls (trace s).

(** The FAQ carousel is on screen. *)
Definition showsCarousel (s : State) : bool :=
  match render s with
  | Some tree => match styled "faqContainer" tree with [] => false | _ => true end
  | None => false
  end.

(** A sequence started by the present [handleNextFAQ] closure is still
    running. *)
Definition running (s : State) : bool :=
  existsb (runsOn (fadeAnim s)) (timers s).

(** The texts on screen, in document order. *)
Definition textsOnScreen (s : State) : list string :=
  match render s with
  | Some tree => texts tree
  | None => []
  end.

(** The image sources on screen. *)
Definition imagesOnScreen (s : State) : list string :=
  match render s with
  | Some tree => images tree
  | None => []
  end.

(** Total time passed over a list of events. *)
Fixpoint elapsed (es : list Event) : N :=
  match es with
  | [] => 0
  | Elapse ms :: r => ms + elapsed r
  | _ :: r => elapsed r
  end.

(** Presses that reached a touchable bound to [onDone]. *)
Fixpoint finalPresses (es : list Event) (s : State) : nat :=
  match es with
  | [] => 0
  | e :: r =>
      (match e, pressed s with
       | Press, Some OnDoneProp => 1
       | _, _ => 0
       end) + finalPresses r (step e s)
  end.

(** *** Measures used in the proofs *)

(** Callbacks in a queue that are the [onDone] prop. *)
Fixpoint pendingCalls (q : list Timer) : nat :=
  match q with
  | [] => 0
  | x :: r =>
      (match callback x with CallOnDone => 1 | AdvanceFrom _ _ => 0 end)
      + pendingCalls r
  end.

(** Those of them due by time [t]. *)
Definition dueCalls (t : N) (q : list Timer) : nat :=
  pendingCalls (List.filter (is_due t) q).

(** The part of the state that only [checkFirstTime], a press or the
    clock can change. *)
Definition frame (s : State) :=
  (isFirstTime s, mounted s, suspended s, cleanup s, storage s, now s,
   timers s).

(** [checkFirstTime] has returned with the carousel off. *)
Definition settledOff (s : State) : Prop :=
  isFirstTime s = None /\ suspended s = Returned /\ cleanup s = None.

(** Every queued callback is still in the future. *)
Definition ahead (s : State) : Prop :=
  Forall (fun x => (now s < due x)%N) (timers s).

(** Invocations [checkFirstTime] and the queue may still make. *)
Definition budget (s : State) : nat :=
  pendingCalls (timers s)
  + match suspended s with Returned => 0 | _ => 1 end.

(** One for a press that reaches a touchable bound to [onDone]. *)
Definition bump (e : Event) (s : State) : nat :=
  match e, pressed s with
  | Press, Some OnDoneProp => 1
  | _, _ => 0
  end.

(** No [Unmount] among the events. *)
Definition staysMounted (es : list Event) : bool :=
  forallb (fun e => match e with Unmount => false | _ => true end) es.

End Splash.

(** A device on which the flag was stored by an earlier launch. *)
Definition visited : gmap string string := {[ "hasVisited" := "true" ]}.

(** ** Further observations on the two components *)

Module Observe.
Import Splash.

(** The index after the callbacks of [ready] have run in order on a
    component that is mounted ([alive]) or not: what the completion
    callbacks of [handleNextFAQ] do to [currentFAQ]. *)
Definition advance (alive : bool) (cur : nat) (ready : list Timer) : nat :=
  fold_left
    (fun cur x =>
       match callback x with
       | AdvanceFrom c _ => if alive then (c + 1) mod length FAQs else cur
       | CallOnDone => cur
       end)
    ready cur.

(** Entry animations started so far (the effect on
    [currentFAQ, isFirstTime]). *)
Fixpoint entries (tr : list Effect) : nat :=
  match tr with
  | [] => 0
  | AnimatedParallel _ :: r => S (entries r)
  | _ :: r => entries r
  end.

(** What holds of a queued callback in every reachable state.  The
    3000 ms timer is queued only by a [checkFirstTime] that leaves the
    carousel off.  A completion callback of [handleNextFAQ] is queued
    only with the carousel on; it captured an index before the last one
    and no greater than the one on screen, on an [Animated.Value] made
    no later than the one the present closure holds, and the present
    one only with the present index; and its sequence ends within
    600 ms. *)
Definition queued (s : State) (x : Timer) : Prop :=
  match callback x with
  | CallOnDone => isFirstTime s = None
  | AdvanceFrom c v =>
      isFirstTime s = Some true
      /\ c + 1 < length FAQs /\ c <= currentFAQ s
      /\ v <= fadeAnim s /\ (v = fadeAnim s -> c = currentFAQ s)
      /\ (due x <= now s + 600)%N
  end.

(** What holds of the callbacks [q] still to run, of the index and of
    the entry animations in every reachable state: nothing is queued
    while [checkFirstTime] is suspended; the index is inside [FAQs],
    and 0 before the carousel is on; the entry animation has not been
    started before that, and at least once per entry reached after. *)
Definition settled (q : list Timer) (s : State) : Prop :=
  Forall (queued s) q
  /\ (suspended s <> Returned -> q = [] /\ isFirstTime s = None)
  /\ currentFAQ s < length FAQs
  /\ match isFirstTime s with
     | Some true => S (currentFAQ s) <= entries (trace s)
     | _ => currentFAQ s = 0 /\ entries (trace s) = 0
     end.

(** The events a live component takes at an instant: a settlement or a
    press. *)
Definition instant (e : Event) : Prop := e = Resolve \/ e = Reject \/ e = Press.

(** Events that settle no storage promise. *)
Definition noSettle (es : list Event) : bool :=
  forallb (fun e => match e with Resolve | Reject => false | _ => true end) es.

(** Where a run from [mount disk] can be, as far as the store goes. *)
Definition tracks (disk : gmap string string) (s : State) : Prop :=
  match suspended s with
  | AwaitGetItem => storage s = disk /\ isFirstTime s = None
  | AwaitSetItem =>
      storage s = disk /\ isFirstTime s = None
      /\ truthy (disk !! key) = false
  | Returned =>
      (storage s = disk /\ isFirstTime s = None)
      \/ (storage s = <[key := "true"]> disk
          /\ truthy (disk !! key) = false)
  end.

(** The message left by the last load or HTTP error of [es], [acc] if
    there is none. *)
Definition lastMessage (acc : option string) (es : list Pane.Event)
  : option string :=
  fold_left
    (fun acc e => match Pane.message e with Some m => Some m | None => acc end)
    es acc.

(** The [console.warn] line of an error event. *)
Definition warnLine (e : Pane.Event) : list string :=
  match e with
  | Pane.LoadError d => ["WebView error: " +:+ d]
  | Pane.HttpError c => ["HTTP error: " +:+ show_number c]
  | Pane.LoadEnd | Pane.RenderError _ => []
  end.

End Observe.

(** ** App (index.tsx, lines 227-235) *)

Module App.

Record State := mk {
  showSplash : bool;               (* useState(true) *)
  splash : Splash.State;           (* the SplashScreen instance; its timers
                                      outlive its unmounting *)
  pane : option Pane.State         (* the WebViewComponent instance, once mounted *)
}.

(** What reaches the application: storage settlements, presses and
    time for the splash, engine events for the pane. *)
Inductive Event :=
| Resolve
| Reject
| Press
| Elapse (ms : N)
| Engine (e : Pane.Event).

Definition start (disk : gmap string string) : State :=
  {| showSplash := true; splash := Splash.mount disk; pane := None |}.

(** [onDone={() => setShowSplash(false)}].  After a piece of the
    splash's code has run, an invocation of [onDone] made while
    [showSplash] was on turns it off: the re-render unmounts
    [SplashScreen] and mounts a fresh [WebViewComponent].  With
    [showSplash] already off the setter changes nothing. *)
Definition deliver (f : Splash.State -> Splash.State) (a : State) : State :=
  let s' := f (splash a) in
  if showSplash a && (Splash.onDoneCount (splash a) <? Splash.onDoneCount s')%nat
  then {| showSplash := false; splash := Splash.unmount s';
          pane := Some Pane.initial |}
  else {| showSplash := showSplash a; splash := s'; pane := pane a |}.

(** Time passing: the due callbacks run one by one, each followed by
    the re-render it may cause. *)
Definition elapse (ms : N) (a : State) : State :=
  let s := splash a in
  let t := (Splash.now s + ms)%N in
  let ready := List.filter (Splash.is_due t) (Splash.timers s) in
  let waiting :=
    List.filter (fun x => negb (Splash.is_due t x)) (Splash.timers s) in
  fold_left
    (fun a x => deliver (Splash.runCallback (Splash.callback x)) a)
    ready
    {| showSplash := showSplash a;
       splash := Splash.with_now t (Splash.with_timers waiting s);
       pane := pane a |}.

Definition step (e : Event) (a : State) : State :=
  match e with
  | Resolve => deliver (Splash.step Splash.Resolve) a
  | Reject => deliver (Splash.step Splash.Reject) a
  | Press => deliver (Splash.step Splash.Press) a
  | Elapse ms => elapse ms a
  | Engine pe =>
      {| showSplash := showSplash a; splash := splash a;
         pane := Pane.step pe <$> pane a |}
  end.

Definition run (es : list Event) (a : State) : State :=
  fold_left (fun a e => step e a) es a.

(** [showSplash ? <SplashScreen .../> : <WebViewComponent />] *)
Definition render (a : State) : option Element :=
  if showSplash a then Splash.render (splash a)
  else Pane.render <$> pane a.

(** The embedded browser views on screen. *)
Definition webviewsOnScreen (a : State) : list Element :=
  match render a with
  | Some tree => webviews tree
  | None => []
  end.

(** [onDone] invocations made by the splash so far. *)
Definition onDoneCount (a : State) : nat := Splash.onDoneCount (splash a).

(** The splash event an application event is, if it is one. *)
Definition toSplash (e : Event) : option Splash.Event :=
  match e with
  | Resolve => Some Splash.Resolve
  | Reject => Some Splash.Reject
  | Press => Some Splash.Press
  | Elapse ms => Some (Splash.Elapse ms)
  | Engine _ => None
  end.

(** The events of [es] as a splash mounted on its own would get them. *)
Definition alone (es : list Event) : list Splash.Event := omap toSplash es.

(** The engine events of [es]. *)
Definition engineEvents (es : list Event) : list Pane.Event :=
  omap (fun e => match e with Engine pe => Some pe | _ => None end) es.

(** What holds of every state the application reaches, [queued] being
    the callbacks of the current tick that have still to run. *)
Definition coherent (queued : list Splash.Timer) (a : State) : Prop :=
  if showSplash a then
    Splash.mounted (splash a) = true
    /\ Splash.onDoneCount (splash a) = 0
    /\ Splash.pendingCalls queued + Splash.budget (splash a) <= 1
    /\ (Splash.isFirstTime (splash a) = Some true ->
        Splash.pendingCalls queued + Splash.budget (splash a) = 0)
    /\ pane a = None
  else
    Splash.mounted (splash a) = false
    /\ Splash.onDoneCount (splash a) = 1
    /\ Splash.pendingCalls queued + Splash.budget (splash a) = 0
    /\ pane a <> None.

End App.

(** ** Lemmas on the splash machine *)

Module SplashFacts.
Import Splash.

Lemma calls_app (a b : list Effect) : calls (a ++ b) = calls a + calls b.
Proof.
  induction a as [|e a IH]; simpl; [reflexivity|].
  destruct e; simpl; rewrite IH; reflexivity.
Qed.

Lemma pendingCalls_enqueue (t : Timer) (q : list Timer) :
  pendingCalls (enqueue t q) = pendingCalls [t] + pendingCalls q.
Proof.
  induction q as [|u q IH]; simpl; [lia|].
  destruct (due u <=? due t)%N; simpl in *; lia.
Qed.

Lemma pendingCalls_filter_le (f : Timer -> bool) (q : list Timer) :
  pendingCalls (List.filter f q) <= pendingCalls q.
Proof.
  induction q as [|u q IH]; simpl; [lia|].
  destruct (f u); simpl; lia.
Qed.

Lemma pendingCalls_split (f : Timer -> bool) (q : list Timer) :
  pendingCalls q
  = pendingCalls (List.filter f q)
    + pendingCalls (List.filter (fun x => negb (f x)) q).
Proof.
  induction q as [|u q IH]; simpl; [reflexivity|].
  destruct (f u); simpl; lia.
Qed.

(** A timer not due by [t] that is due by a later [t'] is found again
    after the ones due by [t] have been taken out. *)
Lemma dueCalls_later (t t' : N) (q : list Timer) :
  (t <= t')%N ->
  dueCalls t' q
  = dueCalls t q + dueCalls t' (List.filter (fun x => negb (is_due t x)) q).
Proof.
  intros Hle. unfold dueCalls.
  induction q as [|u q IH]; simpl; [reflexivity|].
  destruct (is_due t u) eqn:E1, (is_due t' u) eqn:E2;
    simpl; rewrite ?E2; simpl; try lia.
  unfold is_due in E1, E2.
  apply N.leb_le in E1. apply N.leb_gt in E2. lia.
Qed.

(** *** What a queued callback does *)

Lemma runCallback_frame (cb : Callback) (s : State) :
  frame (runCallback cb s) = frame s.
Proof.
  destruct cb as [|c v]; simpl; [reflexivity|].
  unfold setCurrentFAQ, entryAnimation.
  destruct (mounted s) eqn:Hm; [|reflexivity].
  destruct (Nat.eqb _ _); [reflexivity|].
  simpl. destruct (isFirstTime s) as [[|]|]; reflexivity.
Qed.

Lemma runCallback_count (cb : Callback) (s : State) :
  onDoneCount (runCallback cb s)
  = onDoneCount s + match cb with CallOnDone => 1 | AdvanceFrom _ _ => 0 end.
Proof.
  destruct cb as [|c v]; unfold onDoneCount; simpl.
  - rewrite calls_app. reflexivity.
  - unfold setCurrentFAQ, entryAnimation.
    destruct (mounted s); [|lia].
    destruct (Nat.eqb _ _); [lia|].
    simpl. destruct (isFirstTime s) as [[|]|]; simpl; try lia.
    rewrite calls_app. simpl. lia.
Qed.

Lemma fire_frame (ready : list Timer) (s : State) :
  frame (fold_left (fun s x => runCallback (callback x) s) ready s) = frame s.
Proof.
  revert s. induction ready as [|x r IH]; intros s; simpl; [reflexivity|].
  rewrite IH. apply runCallback_frame.
Qed.

Lemma fire_count (ready : list Timer) (s : State) :
  onDoneCount (fold_left (fun s x => runCallback (callback x) s) ready s)
  = onDoneCount s + pendingCalls ready.
Proof.
  revert s. induction ready as [|x r IH]; intros s; simpl; [lia|].
  rewrite IH, runCallback_count. destruct (callback x); lia.
Qed.

Lemma elapse_frame (ms : N) (s : State) :
  frame (elapse ms s)
  = (isFirstTime s, mounted s, suspended s, cleanup s, storage s,
     (now s + ms)%N,
     List.filter (fun x => negb (is_due (now s + ms) x)) (timers s)).
Proof. unfold elapse. rewrite fire_frame. reflexivity. Qed.

Lemma elapse_count (ms : N) (s : State) :
  onDoneCount (elapse ms s)
  = onDoneCount s + dueCalls (now s + ms) (timers s).
Proof. unfold elapse. rewrite fire_count. reflexivity. Qed.

Lemma elapse_fields (ms : N) (s : State) :
  isFirstTime (elapse ms s) = isFirstTime s
  /\ mounted (elapse ms s) = mounted s
  /\ suspended (elapse ms s) = suspended s
  /\ cleanup (elapse ms s) = cleanup s
  /\ storage (elapse ms s) = storage s
  /\ now (elapse ms s) = (now s + ms)%N
  /\ timers (elapse ms s)
     = List.filter (fun x => negb (is_due (now s + ms) x)) (timers s).
Proof.
  pose proof (elapse_frame ms s) as H. unfold frame in H.
  inversion H. repeat split; reflexivity.
Qed.

(** *** A press on "Next" *)

Lemma stopped_pending (v : nat) (q : list Timer) :
  pendingCalls (List.filter (runsOn v) q) = 0.
Proof.
  induction q as [|x q IH]; simpl; [reflexivity|].
  unfold runsOn at 1. destruct (callback x) as [|c v'] eqn:Hcb; [exact IH|].
  destruct (Nat.eqb v' v); [|exact IH]. simpl. rewrite Hcb. exact IH.
Qed.

Lemma others_pending (v : nat) (q : list Timer) :
  pendingCalls (List.filter (fun x => negb (runsOn v x)) q) = pendingCalls q.
Proof.
  rewrite (pendingCalls_split (runsOn v) q), stopped_pending. reflexivity.
Qed.

Lemma handleNextFAQ_fields (c : nat) (s : State) :
  isFirstTime (handleNextFAQ c s) = isFirstTime s
  /\ mounted (handleNextFAQ c s) = mounted s
  /\ suspended (handleNextFAQ c s) = suspended s
  /\ cleanup (handleNextFAQ c s) = cleanup s
  /\ storage (handleNextFAQ c s) = storage s
  /\ now (handleNextFAQ c s) = now s
  /\ timers (handleNextFAQ c s)
     = enqueue {| id := nextTimer s; due := (now s + 600)%N;
                  callback := AdvanceFrom c (fadeAnim s) |}
         (List.filter (fun x => negb (runsOn (fadeAnim s) x)) (timers s)).
Proof.
  unfold handleNextFAQ.
  pose proof (fire_frame
                (List.filter (runsOn (fadeAnim s)) (timers s))
                (with_timers
                   (List.filter (fun x => negb (runsOn (fadeAnim s) x))
                                (timers s))
                   (emit (AnimatedSequence fadeOutIn) s))) as H.
  unfold frame in H. injection H as H1 H2 H3 H4 H5 H6 H7.
  cbn [isFirstTime mounted suspended cleanup storage now timers
       with_nextTimer with_timers emit] in *.
  rewrite H7. repeat split; assumption.
Qed.

Lemma handleNextFAQ_count (c : nat) (s : State) :
  onDoneCount (handleNextFAQ c s) = onDoneCount s.
Proof.
  unfold handleNextFAQ, onDoneCount.
  cbn [trace with_nextTimer with_timers].
  change (calls (trace ?x)) with (onDoneCount x).
  rewrite fire_count, stopped_pending. unfold onDoneCount.
  cbn [trace with_timers emit]. rewrite calls_app. simpl. lia.
Qed.

Lemma handleNextFAQ_pending (c : nat) (s : State) :
  pendingCalls (timers (handleNextFAQ c s)) = pendingCalls (timers s).
Proof.
  destruct (handleNextFAQ_fields c s) as (_ & _ & _ & _ & _ & _ & ->).
  rewrite pendingCalls_enqueue, others_pending. simpl. lia.
Qed.

(** *** After [checkFirstTime] has returned with the carousel off *)

Lemma off_pressed (s : State) : isFirstTime s = None -> pressed s = None.
Proof.
  intros H. unfold pressed, render. rewrite H.
  destruct (mounted s); reflexivity.
Qed.

Lemma off_shows (s : State) : isFirstTime s = None -> showsCarousel s = false.
Proof. intros H. unfold showsCarousel, render. rewrite H. reflexivity. Qed.

Lemma off_step_other (e : Event) (s : State) :
  settledOff s ->
  (forall ms, e <> Elapse ms) ->
  isFirstTime (step e s) = isFirstTime s
  /\ suspended (step e s) = suspended s
  /\ cleanup (step e s) = cleanup s
  /\ now (step e s) = now s
  /\ timers (step e s) = timers s
  /\ trace (step e s) = trace s.
Proof.
  intros (Hf & Hs & Hc) Hne. destruct e as [| | |ms|]; simpl.
  - rewrite Hs. auto 10.
  - rewrite Hs. auto 10.
  - rewrite (off_pressed s Hf). auto 10.
  - destruct (Hne ms eq_refl).
  - unfold unmount. rewrite Hc. destruct (mounted s); auto 10.
Qed.

Lemma off_step (e : Event) (s : State) : settledOff s -> settledOff (step e s).
Proof.
  intros H.
  assert (Hother : (forall ms, e <> Elapse ms) -> settledOff (step e s)).
  { intros Hne. destruct (off_step_other e s H Hne) as (E1 & E2 & E3 & _).
    unfold settledOff. rewrite E1, E2, E3. exact H. }
  destruct e as [| | |ms|]; try (apply Hother; discriminate).
  destruct (elapse_fields ms s) as (E1 & _ & E2 & E3 & _).
  unfold settledOff. simpl. rewrite E1, E2, E3. exact H.
Qed.

Lemma off_run (es : list Event) (s : State) :
  settledOff s -> settledOff (run es s).
Proof.
  revert s. induction es as [|e es IH]; intros s H; simpl; [exact H|].
  apply IH, off_step, H.
Qed.

Lemma off_finalPresses (es : list Event) (s : State) :
  settledOff s -> finalPresses es s = 0.
Proof.
  revert s. induction es as [|e es IH]; intros s H; simpl; [reflexivity|].
  rewrite (IH _ (off_step e s H)).
  destruct H as (Hf & _). rewrite (off_pressed s Hf).
  destruct e; reflexivity.
Qed.

Lemma waiting_ahead (t : N) (q : list Timer) :
  Forall (fun x => (t < due x)%N)
         (List.filter (fun x => negb (is_due t x)) q).
Proof.
  induction q as [|u q IH]; simpl; [constructor|].
  destruct (is_due t u) eqn:E; simpl; [exact IH|].
  constructor; [|exact IH].
  unfold is_due in E. apply N.leb_gt in E. exact E.
Qed.

Lemma ahead_dueCalls (t : N) (q : list Timer) :
  Forall (fun x => (t < due x)%N) q -> dueCalls t q = 0.
Proof.
  unfold dueCalls. induction 1 as [|u q Hu _ IH]; simpl; [reflexivity|].
  unfold is_due at 1. destruct (N.leb_spec (due u) t); [lia|exact IH].
Qed.

(** With the carousel off, the only invocations still to come are the
    queued ones, each when its time has passed. *)
Lemma off_run_count (es : list Event) (s : State) :
  settledOff s -> ahead s ->
  onDoneCount (run es s)
  = onDoneCount s + dueCalls (now s + elapsed es) (timers s).
Proof.
  revert s. induction es as [|e es IH]; intros s Hoff Hah.
  - simpl. rewrite N.add_0_r, (ahead_dueCalls _ _ Hah). lia.
  - assert (Hoff' := off_step e s Hoff).
    assert (Hother : (forall ms, e <> Elapse ms) ->
                     elapsed (e :: es) = elapsed es ->
                     onDoneCount (run (e :: es) s)
                     = onDoneCount s
                       + dueCalls (now s + elapsed (e :: es)) (timers s)).
    { intros Hne Hel.
      destruct (off_step_other e s Hoff Hne) as (_ & _ & _ & En & Et & Etr).
      rewrite Hel. simpl. rewrite IH;
        [|exact Hoff'|unfold ahead; rewrite En, Et; exact Hah].
      unfold onDoneCount. rewrite En, Et, Etr. reflexivity. }
    destruct e as [| | |ms|];
      try (apply Hother; [discriminate|reflexivity]).
    clear Hother.
    destruct (elapse_fields ms s) as (_ & _ & _ & _ & _ & En & Et).
    simpl in Hoff'. simpl.
    rewrite IH;
      [|exact Hoff'|unfold ahead; rewrite En, Et; apply waiting_ahead].
    rewrite En, Et, elapse_count.
    rewrite <- N.add_assoc.
    rewrite (dueCalls_later (now s + ms) (now s + (ms + elapsed es)) (timers s))
      by lia.
    lia.
Qed.

(** *** Bounds that hold on every path *)

Lemma setIsFirstTime_count (b : bool) (s : State) :
  onDoneCount (setIsFirstTime b s) = onDoneCount s
  /\ timers (setIsFirstTime b s) = timers s
  /\ suspended (setIsFirstTime b s) = suspended s.
Proof.
  unfold setIsFirstTime, entryAnimation, onDoneCount.
  destruct (mounted s); [|auto].
  destruct (isFirstTime s) as [b'|]; [destruct (Bool.eqb b b'); [auto|]|];
    destruct b; simpl; rewrite ?calls_app; simpl; auto.
Qed.

Lemma step_lower (e : Event) (s : State) :
  onDoneCount s + bump e s <= onDoneCount (step e s).
Proof.
  unfold bump. destruct e as [| | |ms|]; simpl.
  - destruct (suspended s); [| |lia].
    + unfold afterGetItem. destruct (truthy _); unfold onDoneCount; simpl;
        rewrite ?calls_app; simpl; lia.
    + unfold afterSetItem, returns, onDoneCount. simpl.
      pose proof (setIsFirstTime_count true
        (with_storage (<[key:="true"]> (storage s)) s)) as (H & _).
      unfold onDoneCount in H. simpl in H. rewrite H. lia.
  - destruct (suspended s); unfold onDoneCount; simpl;
      rewrite ?calls_app; simpl; lia.
  - destruct (pressed s) as [[c|]|]; cbn [invoke];
      rewrite ?handleNextFAQ_count; unfold onDoneCount; simpl;
      rewrite ?calls_app; simpl; lia.
  - rewrite elapse_count. lia.
  - unfold unmount. destruct (mounted s); [|lia].
    destruct (cleanup s); unfold onDoneCount; simpl;
      rewrite ?calls_app; simpl; lia.
Qed.

Lemma step_upper (e : Event) (s : State) :
  onDoneCount (step e s) + budget (step e s)
  <= onDoneCount s + budget s + bump e s.
Proof.
  unfold bump, budget. destruct e as [| | |ms|]; simpl.
  - destruct (suspended s) eqn:Hs; [| |rewrite Hs; lia].
    + unfold afterGetItem. destruct (truthy _); unfold onDoneCount; simpl;
        rewrite ?calls_app, ?pendingCalls_enqueue, ?Hs; simpl; lia.
    + unfold afterSetItem, returns. simpl.
      pose proof (setIsFirstTime_count true
        (with_storage (<[key:="true"]> (storage s)) s)) as (H & Ht & _).
      unfold onDoneCount in *. simpl in *. rewrite H, Ht. lia.
  - destruct (suspended s) eqn:Hs; unfold onDoneCount; simpl;
      rewrite ?calls_app, ?Hs; simpl; lia.
  - destruct (pressed s) as [[c|]|]; cbn [invoke].
    + destruct (handleNextFAQ_fields c s) as (_ & _ & -> & _).
      rewrite handleNextFAQ_count, handleNextFAQ_pending. lia.
    + unfold onDoneCount; simpl; rewrite ?calls_app; simpl; lia.
    + lia.
  - destruct (elapse_fields ms s) as (_ & _ & Es & _ & _ & _ & Et).
    rewrite elapse_count, Es, Et. unfold dueCalls.
    rewrite (pendingCalls_split (is_due (now s + ms)) (timers s)). lia.
  - unfold unmount. destruct (mounted s); [|lia].
    destruct (cleanup s) as [timer|]; unfold onDoneCount; simpl;
      rewrite ?calls_app; simpl; [|lia].
    pose proof (pendingCalls_filter_le
                  (fun x => negb (Nat.eqb (id x) timer)) (timers s)).
    lia.
Qed.

Lemma run_bounds (es : list Event) (s : State) :
  onDoneCount s + finalPresses es s <= onDoneCount (run es s)
  /\ onDoneCount (run es s) + budget (run es s)
     <= onDoneCount s + budget s + finalPresses es s.
Proof.
  revert s. induction es as [|e es IH]; intros s; simpl; [lia|].
  destruct (IH (step e s)) as (Hlo & Hhi).
  pose proof (step_lower e s) as H1. pose proof (step_upper e s) as H2.
  unfold bump in H1, H2.
  destruct e; destruct (pressed s) as [[c|]|]; simpl in *; lia.
Qed.

(** *** The welcome-back branch *)

Lemma step_never_false (e : Event) (s : State) :
  isFirstTime s <> Some false -> isFirstTime (step e s) <> Some false.
Proof.
  intros H. destruct e as [| | |ms|]; simpl.
  - destruct (suspended s); [| |exact H].
    + unfold afterGetItem. destruct (truthy _); exact H.
    + unfold afterSetItem, setIsFirstTime, entryAnimation. simpl.
      destruct (mounted s); [|exact H].
      destruct (isFirstTime s) as [[|]|] eqn:E; simpl; rewrite ?E; congruence.
  - destruct (suspended s); exact H.
  - destruct (pressed s) as [[c|]|]; cbn [invoke]; try exact H.
    destruct (handleNextFAQ_fields c s) as (-> & _). exact H.
  - destruct (elapse_fields ms s) as (E & _). rewrite E. exact H.
  - unfold unmount. destruct (mounted s); [|exact H].
    destruct (cleanup s); exact H.
Qed.

Lemma run_never_false (es : list Event) (s : State) :
  isFirstTime s <> Some false -> isFirstTime (run es s) <> Some false.
Proof.
  revert s. induction es as [|e es IH]; intros s H; simpl; [exact H|].
  apply IH, step_never_false, H.
Qed.

End SplashFacts.

(** ** Lemmas on the browser pane *)

Module PaneFacts.
Import Pane.

Lemma run_snoc (es : list Event) (e : Event) (s : State) :
  run (es ++ [e]) s = step e (run es s).
Proof. unfold run. rewrite fold_left_app. reflexivity. Qed.

(** The [WebView] is rendered unconditionally. *)
Lemma render_webview (s : State) :
  webviews (render s) = [WebView "https://alicomms.com/" (shown (engine s))].
Proof.
  unfold render.
  destruct (truthy _); [destruct (errorMessage s)|]; reflexivity.
Qed.

Lemma banners_of_message (s : State) :
  banners s
  = match errorMessage s with
    | Some m => if truthy (Some m) then [m] else []
    | None => []
    end.
Proof.
  unfold banners, render.
  destruct (errorMessage s) as [m|]; simpl.
  - destruct (engine s), (negb (m =? "")); reflexivity.
  - destruct (engine s); reflexivity.
Qed.

Lemma step_message (e : Event) (m : string) (s : State) :
  message e = Some m ->
  errorMessage (step e s) = Some m /\ truthy (Some m) = true.
Proof.
  destruct e; simpl; intros H; inversion H; split; reflexivity.
Qed.

(** Events that are not load or HTTP errors leave the message alone. *)
Lemma quiet_step_message (e : Event) (s : State) :
  isError e = false -> errorMessage (step e s) = errorMessage s.
Proof.
  destruct e; intros H; try discriminate H; simpl; [reflexivity|].
  destruct (reporting s); reflexivity.
Qed.

Lemma quiet_run_message (es : list Event) (s : State) :
  forallb (fun e => negb (isError e)) es = true ->
  errorMessage (run es s) = errorMessage s.
Proof.
  revert s. induction es as [|e es IH]; intros s H; [reflexivity|].
  simpl in H. apply andb_true_iff in H as (He & Hes).
  simpl. rewrite (IH _ Hes). apply quiet_step_message.
  destruct (isError e); [discriminate|reflexivity].
Qed.

(** The error view is drawn for a load error only, and [onError] has
    then left its message. *)
Lemma step_owed (e : Event) (s : State) :
  (reporting s = true \/ (exists n, engine s = RenderFailed n) ->
   truthy (errorMessage s) = true) ->
  reporting (step e s) = true \/ (exists n, engine (step e s) = RenderFailed n) ->
  truthy (errorMessage (step e s)) = true.
Proof.
  intros IH. destruct e as [|d|c|n]; simpl.
  - intros [H | (n & H)]; discriminate H.
  - intros _. reflexivity.
  - intros _. reflexivity.
  - destruct (reporting s) eqn:Hr; simpl.
    + intros _. apply IH. left. reflexivity.
    + rewrite Hr. exact IH.
Qed.

Lemma run_owed (es : list Event) (s : State) :
  (reporting s = true \/ (exists n, engine s = RenderFailed n) ->
   truthy (errorMessage s) = true) ->
  reporting (run es s) = true \/ (exists n, engine (run es s) = RenderFailed n) ->
  truthy (errorMessage (run es s)) = true.
Proof.
  revert s. induction es as [|e es IH]; intros s H; [exact H|].
  simpl. apply IH, step_owed, H.
Qed.

End PaneFacts.

(** ** The browser pane's error surface *)

Example load_error_banner :
  Pane.banners
    (Pane.run [Pane.LoadError "net::ERR_CONNECTION_REFUSED"] Pane.initial)
  = ["Load Error: net::ERR_CONNECTION_REFUSED"].
Proof. reflexivity. Qed.

(** C7.  After any non-empty sequence of load and HTTP error events,
    whatever the state the pane was in, exactly one banner is on screen
    and it carries the message of the last event; at every point of the
    sequence the tree holds the one [WebView] on the fixed address. *)
Theorem banner_last_write_wins
    (s : Pane.State) (es : list Pane.Event) (e : Pane.Event) :
  forallb Pane.isError (es ++ [e]) = true ->
  (exists m, Pane.message e = Some m
             /\ Pane.banners (Pane.run (es ++ [e]) s) = [m])
  /\ forall k,
       let s' := Pane.run (firstn k (es ++ [e])) s in
       webviews (Pane.render s')
       = [WebView "https://alicomms.com/" (Pane.shown (Pane.engine s'))].
Proof.
  intros Hall. split.
  - rewrite forallb_app in Hall. apply andb_true_iff in Hall as (_ & He).
    simpl in He. unfold Pane.isError in He.
    destruct (Pane.message e) as [m|] eqn:Hm; [|discriminate].
    exists m. split; [reflexivity|].
    rewrite PaneFacts.run_snoc, PaneFacts.banners_of_message.
    destruct (PaneFacts.step_message e m (Pane.run es s) Hm) as (-> & ->).
    reflexivity.
  - intros k. apply PaneFacts.render_webview.
Qed.

Lemma banner_last_write_wins_witness :
  exists m,
    Pane.message (Pane.HttpError 503) = Some m
    /\ Pane.banners
         (Pane.run ([Pane.LoadError "net::ERR_CONNECTION_REFUSED";
                     Pane.HttpError 404] ++ [Pane.HttpError 503])
                   Pane.initial)
       = [m].
Proof.
  refine (proj1 (banner_last_write_wins Pane.initial
            [Pane.LoadError "net::ERR_CONNECTION_REFUSED"; Pane.HttpError 404]
            (Pane.HttpError 503) _)).
  reflexivity.
Defined.

(** C8, as the code has it.  The engine reports a load error by calling
    [onError] and then drawing [renderError] with the error's name.  After
    the two, ["WebView Error: " + errorName] is in the frame of the
    [WebView], which stays in the tree, with no touchable to recover by,
    and the banner ["Load Error: " + description] that [onError] has set
    is on screen with it.  From a fresh pane the error text is never in
    the frame without a banner on screen. *)
Theorem render_error_fills_webview_frame
    (s : Pane.State) (description errorName : string) :
  let s' := Pane.run [Pane.LoadError description;
                      Pane.RenderError errorName] s in
  webviews (Pane.render s')
  = [WebView "https://alicomms.com/" (Pane.renderError errorName)]
  /\ texts (Pane.renderError errorName) = ["WebView Error: " +:+ errorName]
  /\ handlers (Pane.render s') = []
  /\ Pane.banners s' = ["Load Error: " +:+ description]
  /\ texts (Pane.render s')
     = ["WebView Error: " +:+ errorName; "Load Error: " +:+ description]
  /\ forall es n,
       Pane.engine (Pane.run es Pane.initial) = Pane.RenderFailed n ->
       exists m, Pane.banners (Pane.run es Pane.initial) = [m].
Proof.
  cbv zeta. split; [|split; [|split; [|split; [|split]]]].
  - rewrite PaneFacts.render_webview. reflexivity.
  - reflexivity.
  - reflexivity.
  - rewrite PaneFacts.banners_of_message. reflexivity.
  - reflexivity.
  - intros es n He.
    assert (Ht : truthy (Pane.errorMessage (Pane.run es Pane.initial)) = true).
    { apply PaneFacts.run_owed.
      - intros [H | (k & H)]; discriminate H.
      - right. exists n. exact He. }
    rewrite PaneFacts.banners_of_message.
    destruct (Pane.errorMessage (Pane.run es Pane.initial)) as [m|];
      [|discriminate Ht].
    exists m. rewrite Ht. reflexivity.
Qed.

Lemma render_error_fills_webview_frame_witness :
  exists m,
    Pane.banners
      (Pane.run [Pane.LoadEnd; Pane.LoadError "net::ERR_TIMED_OUT";
                 Pane.RenderError "timeout"] Pane.initial) = [m].
Proof.
  refine (proj2 (proj2 (proj2 (proj2 (proj2
    (render_error_fills_webview_frame Pane.initial "d" "n")))))
    [Pane.LoadEnd; Pane.LoadError "net::ERR_TIMED_OUT";
     Pane.RenderError "timeout"] "timeout" _).
  reflexivity.
Defined.

(** C8 as stated fails: the load error that makes the engine draw the
    error text has also set the banner, and both are on screen. *)
Lemma render_error_with_banner :
  let s := Pane.run [Pane.LoadError "net::ERR_TIMED_OUT";
                     Pane.RenderError "timeout"] Pane.initial in
  texts (Pane.render s)
  = ["WebView Error: timeout"; "Load Error: net::ERR_TIMED_OUT"]
  /\ Pane.banners s = ["Load Error: net::ERR_TIMED_OUT"]
  /\ Pane.banners s <> [].
Proof. simpl. repeat split. discriminate. Qed.

(** ** Paths of the onboarding splash *)

Module SplashPaths.
Import Splash SplashFacts.

(** The state right after [getItem] resolved with a truthy value. *)
Lemma returning_state (disk : gmap string string) (ms : N) :
  truthy (disk !! key) = true ->
  let s := run [Elapse ms; Resolve] (mount disk) in
  settledOff s /\ ahead s /\ onDoneCount s = 0 /\ now s = ms
  /\ timers s = [{| id := 0; due := (ms + 3000)%N; callback := CallOnDone |}].
Proof.
  intros H. simpl. unfold afterGetItem. simpl. rewrite H.
  unfold settledOff, ahead. simpl.
  repeat split. constructor; [simpl; lia|constructor].
Qed.

Lemma timer_dueCalls (ms t : N) :
  dueCalls (ms + t)
    [{| id := 0; due := (ms + 3000)%N; callback := CallOnDone |}]
  = if (3000 <=? t)%N then 1 else 0.
Proof.
  unfold dueCalls, is_due. simpl.
  destruct (N.leb_spec (ms + 3000) (ms + t)), (N.leb_spec 3000 t);
    simpl; lia.
Qed.

(** The state right after a rejection, of the read or of the write. *)
Lemma failed_state (s : State) :
  isFirstTime s = None -> cleanup s = None -> suspended s <> Returned ->
  let s' := step Reject s in
  settledOff s'
  /\ trace s' = trace s ++ [ConsoleError "Error checking first-time visit:";
                            OnDone]
  /\ now s' = now s /\ timers s' = timers s /\ storage s' = storage s.
Proof.
  intros Hf Hc Hs. simpl. unfold settledOff.
  destruct (suspended s); [| |congruence]; simpl;
    rewrite <- app_assoc; repeat split; assumption.
Qed.

Lemma cleanup_step (e : Event) (s : State) :
  cleanup s = None -> cleanup (step e s) = None.
Proof.
  intros H. destruct e as [| | |ms|]; simpl.
  - destruct (suspended s); [| |exact H].
    + unfold afterGetItem. destruct (truthy _); exact H.
    + unfold afterSetItem, setIsFirstTime, entryAnimation. simpl.
      destruct (mounted s); [|exact H].
      destruct (isFirstTime s) as [[|]|]; exact H.
  - destruct (suspended s); exact H.
  - destruct (pressed s) as [[c|]|]; cbn [invoke]; try exact H.
    destruct (handleNextFAQ_fields c s) as (_ & _ & _ & -> & _). exact H.
  - destruct (elapse_fields ms s) as (_ & _ & _ & E & _). rewrite E. exact H.
  - unfold unmount. destruct (mounted s); [|exact H]. rewrite H. exact H.
Qed.

Lemma cleanup_run (es : list Event) (s : State) :
  cleanup s = None -> cleanup (run es s) = None.
Proof.
  revert s. induction es as [|e es IH]; intros s H; simpl; [exact H|].
  apply IH, cleanup_step, H.
Qed.

(** *** A press on "Next" and the wait that follows *)



(** What the touchable is bound to while the carousel is on. *)
Lemma carousel_pressed (s : State) :
  mounted s = true -> isFirstTime s = Some true ->
  currentFAQ s < length FAQs ->
  pressed s
  = Some (if (currentFAQ s <? length FAQs - 1)%nat
          then HandleNextFAQ (currentFAQ s) else OnDoneProp).
Proof.
  intros Hm Hf Hlt.
  destruct (lookup_lt_is_Some_2 FAQs (currentFAQ s) Hlt) as [faq Hq].
  unfold pressed, render. rewrite Hm, Hf, Hq. reflexivity.
Qed.

(** *** The three ways out of [checkFirstTime] *)

Lemma failure_count (s : State) (es : list Event) :
  isFirstTime s = None -> cleanup s = None -> suspended s <> Returned ->
  timers s = [] ->
  onDoneCount (run (Reject :: es) s) = S (onDoneCount s).
Proof.
  intros Hf Hc Hs Ht.
  destruct (failed_state s Hf Hc Hs) as (Hoff & Htr & _ & Htm & _).
  change (run (Reject :: es) s) with (run es (step Reject s)).
  rewrite (off_run_count es _ Hoff).
  - rewrite Htm, Ht. unfold onDoneCount, dueCalls.
    rewrite Htr, calls_app. simpl. lia.
  - unfold ahead. rewrite Htm, Ht. constructor.
Qed.

Lemma first_read_empty (disk : gmap string string) :
  truthy (disk !! key) = false ->
  run [Resolve] (mount disk) = with_suspended AwaitSetItem (mount disk).
Proof. intros H. simpl. unfold afterGetItem. simpl. rewrite H. reflexivity. Qed.

Lemma interactive_state (disk : gmap string string) :
  truthy (disk !! key) = false ->
  let s := run [Resolve; Resolve] (mount disk) in
  onDoneCount s = 0 /\ budget s = 0.
Proof.
  intros H.
  change (run [Resolve; Resolve] (mount disk))
    with (step Resolve (run [Resolve] (mount disk))).
  rewrite (first_read_empty disk H). split; reflexivity.
Qed.

(** The touchable is bound to [onDone] only on the last entry of a
    mounted carousel. *)
Lemma onDone_bound_last (s : State) :
  pressed s = Some OnDoneProp ->
  mounted s = true /\ isFirstTime s = Some true
  /\ currentFAQ s = length FAQs - 1.
Proof.
  unfold pressed, render. destruct (mounted s); [|discriminate].
  destruct (isFirstTime s) as [[|]|]; try discriminate.
  destruct (currentFAQ s) as [|[|[|n]]]; simpl; try discriminate.
  intros _. repeat split.
Qed.

End SplashPaths.

(** ** Invariants of the splash over whole runs *)

Module SplashInvariants.
Import Splash SplashFacts Observe.

Lemma run_app (es1 es2 : list Event) (s : State) :
  run (es1 ++ es2) s = run es2 (run es1 s).
Proof. unfold run. apply fold_left_app. Qed.

(** *** The index *)

Lemma setCurrentFAQ_value (n : nat) (s : State) :
  currentFAQ (setCurrentFAQ n s) = if mounted s then n else currentFAQ s.
Proof.
  unfold setCurrentFAQ, entryAnimation. destruct (mounted s); [|reflexivity].
  destruct (Nat.eqb_spec n (currentFAQ s)) as [E|E]; [congruence|].
  simpl. destruct (isFirstTime s) as [[|]|]; reflexivity.
Qed.

Lemma runCallback_mounted (cb : Callback) (s : State) :
  mounted (runCallback cb s) = mounted s.
Proof.
  pose proof (f_equal (fun t => snd (fst (fst (fst (fst (fst t))))))
                (runCallback_frame cb s)) as H.
  exact H.
Qed.

Lemma advance_cons (alive : bool) (cur : nat) (x : Timer) (r : list Timer) :
  advance alive cur (x :: r)
  = advance alive
      (match callback x with
       | AdvanceFrom c _ => if alive then (c + 1) mod length FAQs else cur
       | CallOnDone => cur
       end) r.
Proof. reflexivity. Qed.

Lemma fire_currentFAQ (ready : list Timer) (s : State) :
  currentFAQ (fold_left (fun s x => runCallback (callback x) s) ready s)
  = advance (mounted s) (currentFAQ s) ready.
Proof.
  revert s. induction ready as [|x r IH]; intros s; [reflexivity|].
  rewrite advance_cons. cbn [fold_left].
  rewrite IH, (runCallback_mounted (callback x) s).
  f_equal. destruct (callback x) as [|c v]; [reflexivity|].
  apply setCurrentFAQ_value.
Qed.

Lemma elapse_currentFAQ (ms : N) (s : State) :
  currentFAQ (elapse ms s)
  = advance (mounted s) (currentFAQ s)
      (List.filter (is_due (now s + ms)) (timers s)).
Proof. unfold elapse. rewrite fire_currentFAQ. reflexivity. Qed.

Lemma advance_lt (alive : bool) (cur : nat) (ready : list Timer) :
  cur < length FAQs -> advance alive cur ready < length FAQs.
Proof.
  revert cur. induction ready as [|x r IH]; intros cur H; [exact H|].
  rewrite advance_cons. apply IH. destruct (callback x) as [|c v]; [exact H|].
  destruct alive; [|exact H]. apply Nat.mod_upper_bound. discriminate.
Qed.

Lemma press_currentFAQ (c : nat) (s : State) :
  currentFAQ (handleNextFAQ c s)
  = advance (mounted s) (currentFAQ s)
      (List.filter (runsOn (fadeAnim s)) (timers s)).
Proof.
  unfold handleNextFAQ. cbn [currentFAQ with_nextTimer with_timers].
  rewrite fire_currentFAQ. reflexivity.
Qed.

(** What a step other than a press or the passing of time leaves alone. *)
Lemma step_currentFAQ (e : Event) (s : State) :
  e <> Press -> (forall ms, e <> Elapse ms) ->
  currentFAQ (step e s) = currentFAQ s.
Proof.
  intros Hnp Hne. destruct e as [| | |ms|]; simpl.
  - destruct (suspended s); [| |reflexivity].
    + unfold afterGetItem. destruct (truthy _); reflexivity.
    + unfold afterSetItem, setIsFirstTime, entryAnimation. simpl.
      destruct (mounted s); [|reflexivity].
      destruct (isFirstTime s) as [[|]|]; reflexivity.
  - destruct (suspended s); reflexivity.
  - destruct (Hnp eq_refl).
  - destruct (Hne ms eq_refl).
  - unfold unmount. destruct (mounted s); [|reflexivity].
    destruct (cleanup s); reflexivity.
Qed.

Lemma step_in_range (e : Event) (s : State) :
  currentFAQ s < length FAQs -> currentFAQ (step e s) < length FAQs.
Proof.
  intros H.
  assert (Hother : e <> Press -> (forall ms, e <> Elapse ms) ->
                   currentFAQ (step e s) < length FAQs).
  { intros Hnp Hne. rewrite (step_currentFAQ e s Hnp Hne). exact H. }
  destruct e as [| | |ms|]; try (apply Hother; discriminate).
  - simpl. destruct (pressed s) as [[c|]|]; cbn [invoke]; try exact H.
    rewrite press_currentFAQ. apply advance_lt, H.
  - simpl. rewrite elapse_currentFAQ. apply advance_lt, H.
Qed.

Lemma run_in_range (es : list Event) (s : State) :
  currentFAQ s < length FAQs -> currentFAQ (run es s) < length FAQs.
Proof.
  revert s. induction es as [|e es IH]; intros s H; simpl; [exact H|].
  apply IH, step_in_range, H.
Qed.

Lemma render_in_range (s : State) :
  currentFAQ s < length FAQs -> exists tree, render s = Some tree.
Proof.
  intros H. unfold render. destruct (isFirstTime s) as [[|]|]; eauto.
  destruct (lookup_lt_is_Some_2 FAQs (currentFAQ s) H) as [faq ->].
  simpl. eauto.
Qed.

End SplashInvariants.

(** ** What holds in every reachable state of the splash *)

Module Reach.
Import Splash SplashFacts Observe SplashInvariants.

Lemma entries_app (a b : list Effect) : entries (a ++ b) = entries a + entries b.
Proof.
  induction a as [|e a IH]; simpl; [reflexivity|].
  destruct e; simpl; rewrite IH; reflexivity.
Qed.

Lemma enqueue_In (t x : Timer) (q : list Timer) :
  In x (enqueue t q) <-> x = t \/ In x q.
Proof.
  induction q as [|u q IH]; simpl; [intuition congruence|].
  destruct (due u <=? due t)%N; simpl; [rewrite IH|]; intuition congruence.
Qed.

Lemma enqueue_Forall (P : Timer -> Prop) (t : Timer) (q : list Timer) :
  P t -> Forall P q -> Forall P (enqueue t q).
Proof.
  intros Ht Hq. apply List.Forall_forall. intros x Hx.
  apply enqueue_In in Hx as [-> | Hx]; [exact Ht|].
  rewrite List.Forall_forall in Hq. apply Hq, Hx.
Qed.


Lemma filter_Forall (P : Timer -> Prop) (f : Timer -> bool) (q : list Timer) :
  Forall P q -> Forall P (List.filter f q).
Proof.
  rewrite !List.Forall_forall. intros H x Hx.
  apply List.filter_In in Hx as (Hx & _). apply H, Hx.
Qed.



Lemma existsb_filter (f : Timer -> bool) (q : list Timer) :
  existsb f q = match List.filter f q with [] => false | _ => true end.
Proof.
  induction q as [|u q IH]; simpl; [reflexivity|].
  destruct (f u); [reflexivity|exact IH].
Qed.

(** *** setCurrentFAQ *)

Lemma setCurrentFAQ_same (s : State) : setCurrentFAQ (currentFAQ s) s = s.
Proof.
  unfold setCurrentFAQ. rewrite Nat.eqb_refl. destruct (mounted s); reflexivity.
Qed.

Lemma setCurrentFAQ_unmounted (n : nat) (s : State) :
  mounted s = false -> setCurrentFAQ n s = s.
Proof. intros H. unfold setCurrentFAQ. rewrite H. reflexivity. Qed.

Lemma setCurrentFAQ_moves (n : nat) (s : State) :
  mounted s = true -> isFirstTime s = Some true -> n <> currentFAQ s ->
  setCurrentFAQ n s
  = emit (AnimatedParallel 500)
      (with_fadeAnim (S (fadeAnim s)) (with_currentFAQ n s)).
Proof.
  intros Hm Hf Hn. unfold setCurrentFAQ, entryAnimation. rewrite Hm.
  destruct (Nat.eqb_spec n (currentFAQ s)) as [E|_]; [contradiction|].
  cbn [isFirstTime with_fadeAnim with_currentFAQ]. rewrite Hf. reflexivity.
Qed.

Lemma setCurrentFAQ_twice (n : nat) (s : State) :
  setCurrentFAQ n (setCurrentFAQ n s) = setCurrentFAQ n s.
Proof.
  pose proof (setCurrentFAQ_value n s) as Hc.
  destruct (mounted s) eqn:Hm.
  - set (s' := setCurrentFAQ n s) in *. clearbody s'.
    rewrite <- Hc. apply setCurrentFAQ_same.
  - rewrite !(setCurrentFAQ_unmounted n s Hm). reflexivity.
Qed.

(** Callbacks of one closure, run one after the other, do what one of
    them does. *)
Lemma fire_same (c : nat) (ready : list Timer) (s : State) :
  Forall (fun x => exists v, callback x = AdvanceFrom c v) ready ->
  fold_left (fun s x => runCallback (callback x) s) ready s
  = match ready with
    | [] => s
    | _ :: _ => setCurrentFAQ ((c + 1) mod length FAQs) s
    end.
Proof.
  intros H. revert s. induction H as [|x r (v & Hx) Hr IH]; intros s;
    [reflexivity|].
  cbn [fold_left]. rewrite IH, Hx. cbn [runCallback].
  destruct r; [reflexivity|]. apply setCurrentFAQ_twice.
Qed.

(** *** The invariant *)

Lemma settled_transfer (q q' : list Timer) (s s' : State) :
  isFirstTime s' = isFirstTime s ->
  currentFAQ s' = currentFAQ s ->
  fadeAnim s' = fadeAnim s ->
  (suspended s' <> Returned -> suspended s <> Returned) ->
  entries (trace s') = entries (trace s) ->
  (now s <= now s')%N ->
  (forall x, In x q' -> In x q) ->
  settled q s -> settled q' s'.
Proof.
  intros Hf Hc Hv Hs He Hn Hin (Hq & Hw & Hr & Ha).
  unfold settled. rewrite Hf, Hc, He. repeat split; try assumption.
  - rewrite List.Forall_forall in *. intros x Hx.
    pose proof (Hq x (Hin x Hx)) as Hqx. unfold queued in *.
    rewrite Hf, Hc, Hv.
    destruct (callback x) as [|c v]; [exact Hqx|].
    destruct Hqx as (? & ? & ? & ? & ? & ?). repeat split; try assumption. lia.
  - destruct (Hw (Hs H)) as (E & _). subst q.
    destruct q' as [|x r]; [reflexivity|]. destruct (Hin x (or_introl eq_refl)).
  - destruct (Hw (Hs H)) as (_ & E). exact E.
Qed.

Lemma runCallback_settled (x : Timer) (q : list Timer) (s : State) :
  settled (x :: q) s -> settled q (runCallback (callback x) s).
Proof.
  intros H.
  assert (Hkeep : settled q s).
  { apply (settled_transfer (x :: q) q s s); try reflexivity; try lia;
      [tauto|intros y Hy; right; exact Hy|exact H]. }
  destruct H as (Hq & Hw & Hr & Ha).
  apply List.Forall_cons_iff in Hq as (Hx & Hq). unfold queued in Hx.
  destruct (callback x) as [|c v]; cbn [runCallback].
  - apply (settled_transfer q q s); try reflexivity; try lia;
      [tauto|unfold onDone; cbn [trace emit]; rewrite entries_app; simpl; lia
      |tauto|exact Hkeep].
  - destruct Hx as (Hf & Hc & Hle & Hv & Hsame & Hd).
    change (length FAQs) with 3 in *.
    rewrite (Nat.mod_small (c + 1) 3) by lia.
    destruct (mounted s) eqn:Hm;
      [|rewrite (setCurrentFAQ_unmounted _ s Hm); exact Hkeep].
    destruct (Nat.eq_dec (c + 1) (currentFAQ s)) as [E|E];
      [rewrite E, setCurrentFAQ_same; exact Hkeep|].
    rewrite (setCurrentFAQ_moves _ s Hm Hf E).
    unfold settled.
    cbn [isFirstTime currentFAQ suspended trace emit with_fadeAnim
         with_currentFAQ].
    rewrite Hf in *. rewrite entries_app. cbn [entries].
    change (length FAQs) with 3.
    split; [|split; [|split]]; [| |lia|lia].
    + rewrite List.Forall_forall in *. intros y Hy.
      pose proof (Hq y Hy) as Hqy. unfold queued in *.
      cbn [isFirstTime currentFAQ fadeAnim now emit with_fadeAnim
           with_currentFAQ].
      destruct (callback y) as [|c' v']; [congruence|].
      change (length FAQs) with 3 in *.
      destruct Hqy as (? & ? & ? & ? & ? & ?).
      repeat split; try assumption; lia.
    + intros Hs. destruct (Hw Hs) as (Hnil & _). discriminate Hnil.
Qed.

Lemma fire_settled (ready rest : list Timer) (s : State) :
  settled (ready ++ rest) s ->
  settled rest (fold_left (fun s x => runCallback (callback x) s) ready s).
Proof.
  revert s. induction ready as [|x r IH]; intros s H; [exact H|].
  cbn [fold_left]. apply IH, runCallback_settled, H.
Qed.

Lemma split_settled (f : Timer -> bool) (s : State) :
  settled (timers s) s ->
  settled (List.filter f (timers s)
           ++ List.filter (fun x => negb (f x)) (timers s)) s.
Proof.
  apply settled_transfer; try reflexivity; try lia; [tauto|].
  intros x Hx. apply in_app_or in Hx as [Hx | Hx];
    apply List.filter_In in Hx as (Hx & _); exact Hx.
Qed.

Lemma mount_settled (disk : gmap string string) :
  settled (timers (mount disk)) (mount disk).
Proof.
  unfold settled. simpl. repeat split; try constructor; lia.
Qed.

Lemma pressed_next (s : State) (c : nat) :
  pressed s = Some (HandleNextFAQ c) ->
  c = currentFAQ s /\ c + 1 < length FAQs
  /\ isFirstTime s = Some true /\ mounted s = true.
Proof.
  unfold pressed, render. destruct (mounted s); [|discriminate].
  destruct (isFirstTime s) as [[|]|]; try discriminate.
  destruct (currentFAQ s) as [|[|[|n]]]; simpl; try discriminate;
    intros H; inversion H; repeat split; lia.
Qed.

(** The sequences a press stops were started by the closure pressed. *)
Lemma stopped_same (s : State) :
  settled (timers s) s ->
  Forall (fun x => exists v, callback x = AdvanceFrom (currentFAQ s) v)
         (List.filter (runsOn (fadeAnim s)) (timers s)).
Proof.
  intros (Hq & _). rewrite List.Forall_forall in *. intros x Hx.
  apply List.filter_In in Hx as (Hx & Hon).
  pose proof (Hq x Hx) as Hqx. unfold queued, runsOn in *.
  destruct (callback x) as [|c v]; [discriminate|].
  apply Nat.eqb_eq in Hon. destruct Hqx as (_ & _ & _ & _ & Hsame & _).
  rewrite (Hsame Hon). exists v. reflexivity.
Qed.

(** The state a press on "Next" leaves, in full. *)
Lemma press_state (s : State) :
  settled (timers s) s ->
  mounted s = true -> isFirstTime s = Some true ->
  currentFAQ s + 1 < length FAQs ->
  let c := currentFAQ s in
  let s0 := with_timers
              (List.filter (fun x => negb (runsOn (fadeAnim s) x)) (timers s))
              (emit (AnimatedSequence fadeOutIn) s) in
  let s1 := if running s
            then emit (AnimatedParallel 500)
                   (with_fadeAnim (S (fadeAnim s)) (with_currentFAQ (c + 1) s0))
            else s0 in
  handleNextFAQ c s
  = with_nextTimer (S (nextTimer s))
      (with_timers
         (enqueue {| id := nextTimer s; due := (now s + 600)%N;
                     callback := AdvanceFrom c (fadeAnim s) |}
                  (timers s1)) s1).
Proof.
  intros Hs Hm Hf Hlt. cbv zeta. unfold handleNextFAQ.
  rewrite (fire_same (currentFAQ s) _ _ (stopped_same s Hs)).
  unfold running. rewrite existsb_filter.
  change (total_duration fadeOutIn) with 600%N.
  change (length FAQs) with 3 in *.
  destruct (List.filter (runsOn (fadeAnim s)) (timers s)) as [|x r];
    [reflexivity|].
  rewrite (Nat.mod_small (currentFAQ s + 1) 3) by lia.
  rewrite setCurrentFAQ_moves; [reflexivity|exact Hm|exact Hf|].
  cbn [currentFAQ with_timers emit]. lia.
Qed.

Lemma press_settled (c : nat) (s : State) :
  pressed s = Some (HandleNextFAQ c) ->
  settled (timers s) s ->
  settled (timers (handleNextFAQ c s)) (handleNextFAQ c s).
Proof.
  intros Hp Hs.
  destruct (pressed_next s c Hp) as (-> & Hlt & Hf & Hm).
  pose proof (split_settled (runsOn (fadeAnim s)) s Hs) as Hsplit.
  set (stopped := List.filter (runsOn (fadeAnim s)) (timers s)) in *.
  set (others := List.filter (fun x => negb (runsOn (fadeAnim s) x)) (timers s))
    in *.
  set (s0 := with_timers others (emit (AnimatedSequence fadeOutIn) s)).
  assert (H0 : settled (stopped ++ others) s0).
  { apply (settled_transfer (stopped ++ others) (stopped ++ others) s);
      try reflexivity; try lia; [tauto| |tauto|exact Hsplit].
    unfold s0. cbn [trace with_timers emit]. rewrite entries_app. simpl. lia. }
  pose proof (fire_settled stopped others s0 H0) as H1.
  rewrite (press_state s Hs Hm Hf Hlt).
  fold others. fold s0.
  assert (E1 : fold_left (fun s x => runCallback (callback x) s) stopped s0
               = if running s
                 then emit (AnimatedParallel 500)
                        (with_fadeAnim (S (fadeAnim s))
                           (with_currentFAQ (currentFAQ s + 1) s0))
                 else s0).
  { rewrite (fire_same (currentFAQ s) _ _ (stopped_same s Hs)).
    unfold running. rewrite existsb_filter. fold stopped.
    change (length FAQs) with 3 in *.
    destruct stopped as [|x r]; [reflexivity|].
    rewrite (Nat.mod_small (currentFAQ s + 1) 3) by lia.
    rewrite setCurrentFAQ_moves; [reflexivity|exact Hm|exact Hf|].
    unfold s0. cbn [currentFAQ with_timers emit]. lia. }
  rewrite E1 in H1.
  set (s1 := if running s then _ else s0) in *.
  assert (Ht1 : timers s1 = others)
    by (unfold s1; destruct (running s); reflexivity).
  assert (Hshape : (currentFAQ s1 = currentFAQ s /\ fadeAnim s1 = fadeAnim s)
                   \/ (currentFAQ s1 = currentFAQ s + 1
                       /\ fadeAnim s1 = S (fadeAnim s))).
  { unfold s1. destruct (running s); [right|left]; split; reflexivity. }
  assert (Hf1 : isFirstTime s1 = Some true)
    by (unfold s1; destruct (running s); exact Hf).
  assert (Hn1 : now s1 = now s)
    by (unfold s1; destruct (running s); reflexivity).
  rewrite Ht1.
  destruct H1 as (Hq & Hw & Hr & Ha).
  unfold settled.
  cbn [isFirstTime currentFAQ suspended trace timers with_nextTimer
       with_timers].
  split; [|split; [|split]]; try assumption.
  - apply enqueue_Forall.
    + unfold queued.
      cbn [callback due isFirstTime currentFAQ fadeAnim now with_nextTimer
           with_timers].
      rewrite Hn1.
      repeat split; try assumption; try lia;
        destruct Hshape as [(-> & ->) | (-> & ->)]; lia.
    + rewrite List.Forall_forall in *. intros x Hx.
      pose proof (Hq x Hx) as Hqx. unfold queued in *.
      cbn [isFirstTime currentFAQ fadeAnim now with_nextTimer with_timers].
      exact Hqx.
  - intros Hsus. destruct (Hw Hsus) as (_ & Hnone). congruence.
Qed.

Lemma elapse_settled (ms : N) (s : State) :
  settled (timers s) s -> settled (timers (elapse ms s)) (elapse ms s).
Proof.
  intros Hs.
  destruct (elapse_fields ms s) as (_ & _ & _ & _ & _ & _ & ->).
  unfold elapse. apply fire_settled.
  apply (settled_transfer
           (List.filter (is_due (now s + ms)) (timers s)
            ++ List.filter (fun x => negb (is_due (now s + ms) x)) (timers s))
           _ s); try reflexivity;
    [tauto|cbn [now with_now with_timers]; lia|tauto
    |apply split_settled, Hs].
Qed.

Lemma step_settled (e : Event) (s : State) :
  settled (timers s) s -> settled (timers (step e s)) (step e s).
Proof.
  intros Hs. destruct e as [| | |ms|]; cbn [step].
  - destruct (suspended s) eqn:Hsus; [| |exact Hs].
    + destruct Hs as (Hq & Hw & Hr & Ha).
      destruct Hw as (Ht & Hf); [rewrite Hsus; discriminate|].
      rewrite Hf in Ha. destruct Ha as (Hc & He).
      unfold afterGetItem. destruct (truthy _).
      * unfold settled, returns, setTimeout.
        cbn [isFirstTime currentFAQ suspended trace timers emit
             with_promiseValue with_suspended with_nextTimer with_timers].
        rewrite Ht, Hf, entries_app, He. cbn [enqueue entries].
        repeat split; try assumption; try congruence.
        constructor; [unfold queued; simpl; exact Hf|constructor].
      * unfold settled.
        cbn [isFirstTime currentFAQ suspended trace timers with_suspended].
        rewrite Ht, Hf. repeat split; try assumption. constructor.
    + destruct Hs as (Hq & Hw & Hr & Ha).
      destruct Hw as (Ht & Hf); [rewrite Hsus; discriminate|].
      rewrite Hf in Ha. destruct Ha as (Hc & He).
      unfold afterSetItem, returns, setIsFirstTime.
      cbn [mounted isFirstTime with_storage].
      rewrite Hf. destruct (mounted s).
      * unfold entryAnimation, settled.
        cbn [isFirstTime currentFAQ suspended trace timers emit
             with_promiseValue with_suspended with_isFirstTime with_storage].
        rewrite Ht, entries_app, He, Hc. cbn [entries].
        change (length FAQs) with 3.
        repeat split; try constructor; try congruence; lia.
      * unfold settled.
        cbn [isFirstTime currentFAQ suspended trace timers
             with_promiseValue with_suspended with_storage].
        rewrite Ht, Hf. repeat split; try assumption; try congruence.
        constructor.
  - destruct (suspended s) eqn:Hsus; [| |exact Hs];
      (apply (settled_transfer (timers s) _ s); try reflexivity; try lia;
       [intros H; exfalso; apply H; reflexivity
       |unfold catch, returns, onDone;
        cbn [trace emit with_promiseValue with_suspended];
        rewrite !entries_app; simpl; lia
       |tauto|exact Hs]).
  - destruct (pressed s) as [[c|]|] eqn:Hp; cbn [invoke]; [| |exact Hs].
    + apply press_settled; assumption.
    + apply (settled_transfer (timers s) _ s); try reflexivity; try lia;
        [tauto|unfold onDone; cbn [trace emit]; rewrite entries_app; simpl; lia
        |tauto|exact Hs].
  - apply elapse_settled, Hs.
  - unfold unmount. destruct (mounted s); [|exact Hs].
    destruct (cleanup s) as [timer|].
    + apply (settled_transfer (timers s) _ s); try reflexivity; try lia;
        [tauto
        |unfold clearTimeout; cbn [trace emit with_mounted with_timers];
         rewrite entries_app; simpl; lia
        |intros x Hx; unfold clearTimeout in Hx;
         cbn [timers emit with_mounted with_timers] in Hx;
         apply List.filter_In in Hx as (Hx & _); exact Hx
        |exact Hs].
    + apply (settled_transfer (timers s) _ s); try reflexivity; try lia;
        [tauto|tauto|exact Hs].
Qed.

Lemma run_settled (es : list Event) (s : State) :
  settled (timers s) s -> settled (timers (run es s)) (run es s).
Proof.
  revert s. induction es as [|e es IH]; intros s H; [exact H|].
  apply IH, step_settled, H.
Qed.

Lemma reach_settled (disk : gmap string string) (es : list Event) :
  settled (timers (run es (mount disk))) (run es (mount disk)).
Proof. apply run_settled, mount_settled. Qed.

End Reach.

(** ** A press on "Next" in a reachable state *)

Module PressFacts.
Import Splash SplashFacts Observe SplashInvariants Reach.





End PressFacts.

(** ** The onboarding splash *)

Import Splash.

(** C3.  With no ["hasVisited"] on the device, once the read and then
    the write have resolved (after whatever delays), the store holds
    ["true"] under ["hasVisited"] and the carousel is on screen at its
    first entry: the texts on screen are the logo, the first question,
    its answer and "Next"; the first of the three progress dots is the
    active one; the touchable is bound to [handleNextFAQ]; the entry
    animation has been started once; [onDone] has not been invoked. *)
Theorem first_visit_enters_carousel
    (disk : gmap string string) (d1 d2 : N) :
  disk !! key = None ->
  let s := run [Elapse d1; Resolve; Elapse d2; Resolve] (mount disk) in
  storage s = <[key := "true"]> disk
  /\ storage s !! key = Some "true"
  /\ isFirstTime s = Some true
  /\ currentFAQ s = 0
  /\ render s
     = Some (carouselView 0
               {| question := "What is AliComms?";
                  answer := "Is a modern interactive e-commerce platform." |})
  /\ showsCarousel s = true
  /\ onDoneCount s = 0
  /\ textsOnScreen s
     = ["AliComms"; "What is AliComms?";
        "Is a modern interactive e-commerce platform."; "Next"]
  /\ (tree ← render s; Some (styled "progressDot" tree))
     = Some [View ["progressDot"; "activeDot"] [];
             View ["progressDot"] []; View ["progressDot"] []]
  /\ (tree ← render s; Some (handlers tree)) = Some [HandleNextFAQ 0]
  /\ pressed s = Some (HandleNextFAQ 0)
  /\ imagesOnScreen s = []
  /\ trace s = [AnimatedParallel 500].
Proof.
  intros H. simpl. unfold afterGetItem. simpl. rewrite H. simpl.
  repeat split. apply lookup_insert_eq.
Qed.

Lemma first_visit_enters_carousel_witness :
  let s := run [Elapse 40; Resolve; Elapse 15; Resolve] (mount ∅) in
  storage s !! key = Some "true" /\ currentFAQ s = 0 /\ showsCarousel s = true
  /\ textsOnScreen s
     = ["AliComms"; "What is AliComms?";
        "Is a modern interactive e-commerce platform."; "Next"].
Proof.
  destruct (first_visit_enters_carousel ∅ 40 15)
    as (_ & A & _ & B & _ & C & _ & D & _).
  - reflexivity.
  - exact (conj A (conj B (conj C D))).
Defined.

(** C4.  With ["hasVisited"] holding ["true"], whatever events follow
    the read, [onDone] has been invoked once when 3000 ms have passed
    since the read resolved and not at all before that, and the carousel
    is not on screen at any point. *)
Theorem returning_visit_auto_advance
    (disk : gmap string string) (wait : N) (es : list Event) :
  disk !! key = Some "true" ->
  let s := run (Elapse wait :: Resolve :: es) (mount disk) in
  onDoneCount s = (if (3000 <=? elapsed es)%N then 1 else 0)
  /\ showsCarousel s = false
  /\ showsCarousel (run [Elapse wait] (mount disk)) = false.
Proof.
  intros H.
  assert (Ht : truthy (disk !! key) = true) by (rewrite H; reflexivity).
  destruct (SplashPaths.returning_state disk wait Ht) as (Hoff & Hah & Hc & Hn & Htm).
  change (run (Elapse wait :: Resolve :: es) (mount disk))
    with (run es (run [Elapse wait; Resolve] (mount disk))).
  cbv zeta. repeat split.
  - rewrite (SplashFacts.off_run_count es _ Hoff Hah), Hc, Hn, Htm.
    apply SplashPaths.timer_dueCalls.
  - apply SplashFacts.off_shows.
    apply (SplashFacts.off_run es _ Hoff).
Qed.

Lemma returning_visit_auto_advance_witness :
  onDoneCount (run (Elapse 120 :: Resolve :: [Elapse 2999; Press; Elapse 1])
                   (mount visited)) = 1
  /\ onDoneCount (run (Elapse 120 :: Resolve :: [Elapse 2999; Press])
                      (mount visited)) = 0.
Proof.
  split.
  - refine (proj1 (returning_visit_auto_advance visited 120
                     [Elapse 2999; Press; Elapse 1] _)).
    reflexivity.
  - refine (proj1 (returning_visit_auto_advance visited 120
                     [Elapse 2999; Press] _)).
    reflexivity.
Defined.

(** C6.  When the read rejects, at whatever time, the component logs
    the error and invokes [onDone] in that same step; [checkFirstTime]
    is over, the store is untouched and the carousel is off. *)
Theorem read_failure_fails_open (disk : gmap string string) (wait : N) :
  let s0 := run [Elapse wait] (mount disk) in
  let s := step Reject s0 in
  trace s = [ConsoleError "Error checking first-time visit:"; OnDone]
  /\ onDoneCount s0 = 0
  /\ onDoneCount s = 1
  /\ now s = now s0
  /\ suspended s = Returned
  /\ storage s = disk
  /\ showsCarousel s = false.
Proof. simpl. repeat split. Qed.

(** C10.  When the read finds nothing and the write then rejects, the
    component logs the error and invokes [onDone] in that same step,
    the store is left without the flag, and whatever events follow,
    [onDone] is not invoked again and the carousel never comes on. *)
Theorem write_failure_fails_open
    (disk : gmap string string) (es : list Event) :
  disk !! key = None ->
  let s := run [Resolve; Reject] (mount disk) in
  trace s = [ConsoleError "Error checking first-time visit:"; OnDone]
  /\ now s = now (run [Resolve] (mount disk))
  /\ storage s = disk
  /\ onDoneCount (run es s) = 1
  /\ isFirstTime (run es s) = None
  /\ showsCarousel (run es s) = false.
Proof.
  intros H.
  assert (Hs : run [Resolve] (mount disk) = with_suspended AwaitSetItem (mount disk)).
  { simpl. unfold afterGetItem. simpl. rewrite H. reflexivity. }
  change (run [Resolve; Reject] (mount disk))
    with (step Reject (run [Resolve] (mount disk))).
  rewrite Hs.
  destruct (SplashPaths.failed_state (with_suspended AwaitSetItem (mount disk)))
    as (Hoff & Htr & Hn & Htm & Hst); try reflexivity; [discriminate|].
  cbv zeta. set (s := step Reject _) in *.
  assert (Hah : ahead s) by (unfold ahead; rewrite Htm; constructor).
  pose proof (SplashFacts.off_run es s Hoff) as (Hf & _).
  repeat split; try assumption.
  - rewrite (SplashFacts.off_run_count es s Hoff Hah), Htm.
    unfold onDoneCount. rewrite Htr. reflexivity.
  - apply SplashFacts.off_shows, Hf.
Qed.

Lemma write_failure_fails_open_witness :
  onDoneCount (run [Press; Elapse 5000; Resolve; Press]
                   (run [Resolve; Reject] (mount ∅))) = 1.
Proof.
  destruct (write_failure_fails_open ∅ [Press; Elapse 5000; Resolve; Press])
    as (_ & _ & _ & A & _).
  - reflexivity.
  - exact A.
Defined.

(** C2, on the code: the failing run.  A returning user's splash is
    unmounted 1000 ms after the read; nothing clears the timer, and
    2000 ms later [onDone] is invoked on the unmounted component.  No
    run ever leaves React a cleanup to call. *)
Theorem unmount_leaves_timer_armed :
  (let s := run [Resolve; Elapse 1000; Unmount] (mount visited) in
   mounted s = false
   /\ trace s = [SetTimeout 0 3000]
   /\ promiseValue s = Some 0
   /\ timers s = [{| id := 0; due := 3000; callback := CallOnDone |}]
   /\ trace (step (Elapse 2000) s) = [SetTimeout 0 3000; OnDone])
  /\ forall disk es, cleanup (run es (mount disk)) = None.
Proof.
  split; [simpl; repeat split|].
  intros disk es. apply SplashPaths.cleanup_run. reflexivity.
Qed.

(** C9, on the code: the failing run.  For a returning user the screen
    during the 3000 ms is the activity indicator, with no image on it;
    the loader GIF sits in the welcome-back tree, which takes
    [isFirstTime = false], and no run ever sets that: no run puts an
    image on screen. *)
Theorem welcome_back_never_rendered :
  (let s := run [Resolve; Elapse 1000] (mount visited) in
   render s = Some loadingView
   /\ isFirstTime s = None
   /\ onDoneCount s = 0
   /\ imagesOnScreen s = []
   /\ images welcomeBackView = ["../assets/images/loader.gif"])
  /\ forall disk es, imagesOnScreen (run es (mount disk)) = [].
Proof.
  split; [simpl; repeat split|].
  intros disk es.
  pose proof (SplashFacts.run_never_false es (mount disk)) as H.
  unfold imagesOnScreen, render.
  destruct (isFirstTime (run es (mount disk))) as [[|]|].
  - destruct (FAQs !! currentFAQ (run es (mount disk))) as [faq|]; reflexivity.
  - exfalso. apply H; [discriminate|reflexivity].
  - reflexivity.
Qed.




(** C1, as the code has it.  [onDone] is invoked exactly once when the
    read rejects and exactly once when the write rejects, whatever
    follows; on the timer path exactly once when 3000 ms have passed
    since the read resolved and not before, the component staying
    mounted; on the interactive path once for every press that reaches
    the touchable while it is bound to [onDone], so as many times as
    there are such presses.  In every run the count lies between the
    number of such presses and that number plus one, and the touchable
    is bound to [onDone] only while a mounted carousel shows its last
    entry. *)
Theorem onDone_calls_by_path (disk : gmap string string) (es : list Event) :
  onDoneCount (run (Reject :: es) (mount disk)) = 1
  /\ (truthy (disk !! key) = false ->
      onDoneCount (run (Resolve :: Reject :: es) (mount disk)) = 1)
  /\ (truthy (disk !! key) = true ->
      staysMounted es = true ->
      onDoneCount (run (Resolve :: es) (mount disk))
      = if (3000 <=? elapsed es)%N then 1 else 0)
  /\ (truthy (disk !! key) = false ->
      onDoneCount (run (Resolve :: Resolve :: es) (mount disk))
      = finalPresses es (run [Resolve; Resolve] (mount disk)))
  /\ finalPresses es (mount disk) <= onDoneCount (run es (mount disk))
     <= finalPresses es (mount disk) + 1
  /\ (forall s, pressed s = Some OnDoneProp ->
                mounted s = true /\ isFirstTime s = Some true
                /\ currentFAQ s = length FAQs - 1).
Proof.
  split; [|split; [|split; [|split; [|split]]]];
    [| | | | |exact SplashPaths.onDone_bound_last].
  - apply (SplashPaths.failure_count (mount disk) es); try reflexivity.
    discriminate.
  - intros H.
    change (run (Resolve :: Reject :: es) (mount disk))
      with (run (Reject :: es) (run [Resolve] (mount disk))).
    rewrite (SplashPaths.first_read_empty disk H).
    apply (SplashPaths.failure_count
             (with_suspended AwaitSetItem (mount disk)) es);
      try reflexivity.
    discriminate.
  - intros H _.
    destruct (SplashPaths.returning_state disk 0 H)
      as (Hoff & Hah & Hc & Hn & Htm).
    change (run (Resolve :: es) (mount disk))
      with (run es (run [Elapse 0; Resolve] (mount disk))).
    rewrite (SplashFacts.off_run_count es _ Hoff Hah), Hc, Hn, Htm.
    apply SplashPaths.timer_dueCalls.
  - intros H.
    destruct (SplashPaths.interactive_state disk H) as (Hc & Hb).
    change (run (Resolve :: Resolve :: es) (mount disk))
      with (run es (run [Resolve; Resolve] (mount disk))).
    pose proof (SplashFacts.run_bounds es (run [Resolve; Resolve] (mount disk))).
    lia.
  - pose proof (SplashFacts.run_bounds es (mount disk)) as (Hlo & Hhi).
    change (onDoneCount (mount disk)) with 0 in *.
    change (budget (mount disk)) with 1 in *.
    lia.
Qed.

Lemma onDone_calls_by_path_witness :
  onDoneCount (run (Resolve :: [Elapse 1000; Press; Elapse 2000])
                   (mount visited)) = 1
  /\ onDoneCount (run (Resolve :: Resolve
                         :: [Press; Elapse 600; Press; Elapse 600; Press])
                      (mount ∅)) = 1.
Proof.
  split.
  - destruct (onDone_calls_by_path visited [Elapse 1000; Press; Elapse 2000])
      as (_ & _ & A & _).
    exact (A eq_refl eq_refl).
  - destruct (onDone_calls_by_path ∅
                [Press; Elapse 600; Press; Elapse 600; Press])
      as (_ & _ & _ & B & _).
    exact (B eq_refl).
Defined.

(** C1 as stated fails.  A first-time user who presses "Get Started"
    twice has [onDone] invoked twice; a first-time user whose splash is
    unmounted before the last entry ends the component's life with no
    invocation made and none pending. *)
Lemma onDone_not_exactly_once :
  onDoneCount
    (run [Resolve; Resolve; Press; Elapse 600; Press; Elapse 600; Press; Press]
         (mount ∅)) = 2
  /\ (let s := run [Resolve; Resolve; Unmount] (mount ∅) in
      mounted s = false /\ onDoneCount s = 0 /\ budget s = 0
      /\ pressed s = None).
Proof. vm_compute. repeat split. Qed.

(** ** Further properties *)

(** X1.  In every run the index stays inside [FAQs], so the render
    never reads an entry that is not there: there is always a tree. *)
Theorem index_always_in_range (disk : gmap string string) (es : list Event) :
  currentFAQ (run es (mount disk)) < length FAQs
  /\ exists tree, render (run es (mount disk)) = Some tree.
Proof.
  assert (H : currentFAQ (run es (mount disk)) < length FAQs).
  { apply SplashInvariants.run_in_range. simpl. lia. }
  split; [exact H|]. apply SplashInvariants.render_in_range, H.
Qed.

(** ** The stored flag *)

Module StorageFacts.
Import Splash SplashFacts Observe.

(** Presses, time and unmounting settle nothing and store nothing. *)
Lemma step_keeps (e : Event) (s : State) :
  noSettle [e] = true ->
  suspended (step e s) = suspended s
  /\ storage (step e s) = storage s
  /\ isFirstTime (step e s) = isFirstTime s.
Proof.
  destruct e as [| | |ms|]; simpl; try discriminate; intros _.
  - destruct (pressed s) as [[c|]|]; cbn [invoke];
      [|repeat split|repeat split].
    destruct (handleNextFAQ_fields c s) as (E1 & _ & E2 & _ & E3 & _).
    repeat split; assumption.
  - destruct (elapse_fields ms s) as (E1 & _ & E2 & _ & E3 & _).
    repeat split; assumption.
  - unfold unmount. destruct (mounted s); [|repeat split].
    destruct (cleanup s); repeat split.
Qed.

Lemma run_keeps (es : list Event) (s : State) :
  noSettle es = true ->
  suspended (run es s) = suspended s
  /\ storage (run es s) = storage s
  /\ isFirstTime (run es s) = isFirstTime s.
Proof.
  revert s. induction es as [|e es IH]; intros s H; [repeat split|].
  simpl in H. apply andb_true_iff in H as (He & Hes).
  destruct (step_keeps e s) as (E1 & E2 & E3); [simpl; rewrite He; reflexivity|].
  destruct (IH (step e s) Hes) as (F1 & F2 & F3).
  simpl. rewrite F1, F2, F3. repeat split; assumption.
Qed.

Lemma step_tracks (disk : gmap string string) (e : Event) (s : State) :
  tracks disk s -> tracks disk (step e s).
Proof.
  intros H.
  assert (Hkeep : noSettle [e] = true -> tracks disk (step e s)).
  { intros Hn. destruct (step_keeps e s Hn) as (E1 & E2 & E3).
    unfold tracks. rewrite E1, E2, E3. exact H. }
  destruct e as [| | |ms|]; try (apply Hkeep; reflexivity); clear Hkeep.
  - (* Resolve *)
    unfold tracks in *. simpl.
    destruct (suspended s) eqn:Hs.
    + destruct H as (Hst & Hf). unfold afterGetItem. rewrite Hst.
      destruct (truthy (disk !! key)) eqn:Ht; simpl.
      * left. split; assumption.
      * repeat split; assumption.
    + destruct H as (Hst & Hf & Ht).
      unfold afterSetItem. simpl. right. split; [|exact Ht].
      unfold setIsFirstTime, entryAnimation. simpl.
      destruct (mounted s); simpl; [|rewrite Hst; reflexivity].
      rewrite Hf. simpl. rewrite Hst. reflexivity.
    + rewrite Hs. exact H.
  - (* Reject *)
    unfold tracks in *. simpl.
    destruct (suspended s) eqn:Hs; simpl.
    + left. exact H.
    + left. destruct H as (Hst & Hf & _). split; assumption.
    + rewrite Hs. exact H.
Qed.

Lemma run_tracks (disk : gmap string string) (es : list Event) (s : State) :
  tracks disk s -> tracks disk (run es s).
Proof.
  revert s. induction es as [|e es IH]; intros s H; simpl; [exact H|].
  apply IH, step_tracks, H.
Qed.

Lemma mount_tracks (disk : gmap string string) : tracks disk (mount disk).
Proof. split; reflexivity. Qed.

(** What [tracks] says once the three cases are merged. *)
Lemma tracks_summary (disk : gmap string string) (s : State) :
  tracks disk s ->
  (storage s = disk \/ storage s = <[key := "true"]> disk)
  /\ (truthy (disk !! key) = true ->
      storage s = disk /\ isFirstTime s = None)
  /\ (isFirstTime s <> None -> storage s = <[key := "true"]> disk).
Proof.
  unfold tracks. destruct (suspended s).
  - intros (Hst & Hf). repeat split; auto. congruence.
  - intros (Hst & Hf & Ht). repeat split; auto. congruence.
  - intros [(Hst & Hf)|(Hst & Ht)]; repeat split; auto; congruence.
Qed.

Lemma shows_first (s : State) :
  showsCarousel s = true -> isFirstTime s = Some true.
Proof.
  unfold showsCarousel, render.
  destruct (isFirstTime s) as [[|]|]; [reflexivity|discriminate|discriminate].
Qed.

Lemma step_stays_unmounted (e : Event) (s : State) :
  mounted s = false -> mounted (step e s) = false.
Proof.
  intros H. destruct e as [| | |ms|]; simpl.
  - destruct (suspended s); [| |exact H].
    + unfold afterGetItem. destruct (truthy _); exact H.
    + unfold afterSetItem, setIsFirstTime. simpl. rewrite H. exact H.
  - destruct (suspended s); exact H.
  - unfold pressed. rewrite H. exact H.
  - destruct (elapse_fields ms s) as (_ & E & _). rewrite E. exact H.
  - unfold unmount. rewrite H. exact H.
Qed.

Lemma left_unmounted (es : list Event) (s : State) :
  mounted s = false \/ staysMounted es = false ->
  mounted (run es s) = false.
Proof.
  revert s. induction es as [|e es IH]; intros s [H|H]; simpl;
    try exact H; try discriminate H.
  - apply IH. left. apply step_stays_unmounted, H.
  - simpl in H. apply andb_false_iff in H as [H|H].
    + destruct e; try discriminate H. apply IH. left.
      simpl. unfold unmount. destruct (mounted s) eqn:Hm; [|exact Hm].
      destruct (cleanup s); reflexivity.
    + apply IH. right. exact H.
Qed.

End StorageFacts.

(** X2.  The only write the splash ever makes is ["true"] under
    ["hasVisited"]: in every run the store is the one it started with
    or that one with this entry set, every other key reads as before,
    and on a device whose stored value is truthy nothing is written. *)
Theorem store_written_only_under_key
    (disk : gmap string string) (es : list Event) (k : string) :
  let s := run es (mount disk) in
  (storage s = disk \/ storage s = <[key := "true"]> disk)
  /\ (k <> key -> storage s !! k = disk !! k)
  /\ (truthy (disk !! key) = true -> storage s = disk).
Proof.
  cbv zeta.
  destruct (StorageFacts.tracks_summary disk _
              (StorageFacts.run_tracks disk es _ (StorageFacts.mount_tracks disk)))
    as (Hor & Htruthy & _).
  split; [exact Hor|]. split.
  - intros Hk. destruct Hor as [-> | ->]; [reflexivity|].
    apply lookup_insert_ne. congruence.
  - intros Ht. apply Htruthy, Ht.
Qed.

Lemma store_written_only_under_key_witness :
  storage (run [Resolve; Resolve; Press] (mount {[ "theme" := "dark" ]}))
    !! "theme" = Some "dark"
  /\ storage (run [Resolve; Elapse 3000] (mount visited)) = visited.
Proof.
  split.
  - refine (proj1 (proj2 (store_written_only_under_key
                            {[ "theme" := "dark" ]}
                            [Resolve; Resolve; Press] "theme")) _).
    discriminate.
  - refine (proj2 (proj2 (store_written_only_under_key
                            visited [Resolve; Elapse 3000] "theme")) _).
    reflexivity.
Defined.

(** X3.  The flag is in the store before the carousel is ever on
    screen, so a session that showed the carousel leaves a store on
    which no later session shows it again, or writes anything. *)
Theorem carousel_once_per_device
    (disk : gmap string string) (es1 es2 : list Event) :
  showsCarousel (run es1 (mount disk)) = true ->
  let disk' := storage (run es1 (mount disk)) in
  disk' !! key = Some "true"
  /\ showsCarousel (run es2 (mount disk')) = false
  /\ storage (run es2 (mount disk')) = disk'.
Proof.
  intros Hshow. cbv zeta.
  destruct (StorageFacts.tracks_summary disk _
              (StorageFacts.run_tracks disk es1 _ (StorageFacts.mount_tracks disk)))
    as (_ & _ & Hon).
  assert (Hst : storage (run es1 (mount disk)) = <[key := "true"]> disk).
  { apply Hon. rewrite (StorageFacts.shows_first _ Hshow). discriminate. }
  rewrite Hst.
  assert (Hk : (<[key := "true"]> disk : gmap string string) !! key = Some "true")
    by apply lookup_insert_eq.
  split; [exact Hk|].
  destruct (StorageFacts.tracks_summary (<[key := "true"]> disk) _
              (StorageFacts.run_tracks _ es2 _
                 (StorageFacts.mount_tracks (<[key := "true"]> disk))))
    as (_ & Htruthy & _).
  destruct Htruthy as (Hsame & Hnone); [rewrite Hk; reflexivity|].
  split; [|exact Hsame].
  apply SplashFacts.off_shows, Hnone.
Qed.

Lemma carousel_once_per_device_witness :
  let disk' := storage (run [Resolve; Resolve; Press] (mount ∅)) in
  showsCarousel (run [Resolve; Resolve; Press; Elapse 9000] (mount disk'))
  = false.
Proof.
  refine (proj1 (proj2 (carousel_once_per_device ∅
                          [Resolve; Resolve; Press]
                          [Resolve; Resolve; Press; Elapse 9000] _))).
  reflexivity.
Defined.

(** X4.  What is read is tested for truthiness only.  With a value [v]
    stored, once the read has resolved and any write has too, the
    carousel is on exactly when [v] is the empty string; a non-empty
    [v], whatever it says, is left in the store and arms the 3000 ms
    timer, and an empty one is overwritten with ["true"]. *)
Theorem stored_value_tested_for_truthiness
    (disk : gmap string string) (v : string) :
  disk !! key = Some v ->
  let s := run [Resolve; Resolve] (mount disk) in
  showsCarousel s = String.eqb v ""
  /\ storage s !! key = Some (if String.eqb v "" then "true" else v)
  /\ timers s
     = (if String.eqb v "" then []
        else [{| id := 0; due := 3000; callback := CallOnDone |}]).
Proof.
  intros H. simpl. unfold afterGetItem. simpl. rewrite H. simpl.
  destruct (String.eqb v "") eqn:E; simpl.
  - repeat split. apply lookup_insert_eq.
  - repeat split. exact H.
Qed.

Lemma stored_value_tested_for_truthiness_witness :
  let s := run [Resolve; Resolve] (mount {[ "hasVisited" := "false" ]}) in
  showsCarousel s = false /\ storage s !! key = Some "false".
Proof.
  assert (H : ({[ "hasVisited" := "false" ]} : gmap string string) !! key
              = Some "false") by reflexivity.
  destruct (stored_value_tested_for_truthiness
              {[ "hasVisited" := "false" ]} "false" H) as (A & B & _).
  exact (conj A B).
Defined.

(** X5.  Unmounting does not stop [checkFirstTime].  When nothing
    truthy is stored and both storage calls resolve, the flag is
    written even if the component was unmounted while one of them was
    in flight; the carousel then never came on. *)
Theorem write_survives_unmount
    (disk : gmap string string) (es1 es2 : list Event) :
  truthy (disk !! key) = false ->
  Observe.noSettle es1 = true ->
  Observe.noSettle es2 = true ->
  staysMounted (es1 ++ es2) = false ->
  let s := run (es1 ++ Resolve :: es2 ++ [Resolve]) (mount disk) in
  storage s = <[key := "true"]> disk
  /\ suspended s = Returned
  /\ isFirstTime s = None
  /\ showsCarousel s = false.
Proof.
  intros Ht H1 H2 Hum. cbv zeta.
  rewrite SplashInvariants.run_app.
  change (run (Resolve :: es2 ++ [Resolve]) ?s)
    with (run (es2 ++ [Resolve]) (step Resolve s)).
  rewrite SplashInvariants.run_app.
  set (s1 := run es1 (mount disk)).
  destruct (StorageFacts.run_keeps es1 (mount disk) H1) as (A1 & A2 & A3).
  fold s1 in A1, A2, A3. simpl in A1, A2, A3.
  assert (Hs2 : step Resolve s1 = with_suspended AwaitSetItem s1).
  { simpl. rewrite A1. unfold afterGetItem. rewrite A2, Ht. reflexivity. }
  rewrite Hs2. set (s2 := with_suspended AwaitSetItem s1).
  destruct (StorageFacts.run_keeps es2 s2 H2) as (B1 & B2 & B3).
  set (s3 := run es2 s2) in *. simpl in B1, B2, B3.
  assert (Hm : mounted s3 = false).
  { unfold s3. apply StorageFacts.left_unmounted.
    unfold staysMounted in Hum. rewrite forallb_app in Hum.
    apply andb_false_iff in Hum as [Hum|Hum]; [left|right; exact Hum].
    change (mounted s2) with (mounted s1). unfold s1.
    apply StorageFacts.left_unmounted. right. exact Hum. }
  assert (Hf : isFirstTime
                 (run [Resolve] s3) = None).
  { simpl. rewrite B1. unfold afterSetItem, setIsFirstTime. simpl.
    rewrite Hm. change (isFirstTime s3 = None). rewrite B3.
    change (isFirstTime s1 = None). rewrite A3. reflexivity. }
  split; [|split; [|split; [exact Hf|apply SplashFacts.off_shows, Hf]]].
  - simpl. rewrite B1. unfold afterSetItem, setIsFirstTime. simpl.
    rewrite Hm. simpl. rewrite B2.
    change (storage s2) with (storage s1). rewrite A2. reflexivity.
  - simpl. rewrite B1. reflexivity.
Qed.

Lemma write_survives_unmount_witness :
  let s := run ([Elapse 20; Unmount] ++ Resolve :: [Elapse 5] ++ [Resolve])
               (mount ∅) in
  storage s = <[key := "true"]> ∅ /\ showsCarousel s = false.
Proof.
  destruct (write_survives_unmount ∅ [Elapse 20; Unmount] [Elapse 5])
    as (A & _ & _ & B); try reflexivity.
  exact (conj A B).
Defined.


(** X6.  The carousel tree for an entry of [FAQs]: the logo, the
    entry's question and answer and the label of the control are its
    texts; there is one progress dot per entry, the dot of the current
    index alone carrying [activeDot]; and the control reads "Get
    Started" exactly when it is bound to [onDone], "Next" when it is
    bound to [handleNextFAQ]. *)
Theorem carousel_entry_and_progress (cur : nat) (faq : FaqEntry) :
  FAQs !! cur = Some faq ->
  let tree := carouselView cur faq in
  texts tree
  = ["AliComms"; question faq; answer faq;
     if (cur <? length FAQs - 1)%nat then "Next" else "Get Started"]
  /\ handlers tree
     = [if (cur <? length FAQs - 1)%nat
        then HandleNextFAQ cur else OnDoneProp]
  /\ length (styled "progressDot" tree) = length FAQs
  /\ (forall i, i < length FAQs ->
        styled "progressDot" tree !! i
        = Some (View ("progressDot"
                      :: if Nat.eqb cur i then ["activeDot"] else []) []))
  /\ styled "activeDot" tree = [View ["progressDot"; "activeDot"] []].
Proof.
  intros H.
  assert (Hcur : cur < length FAQs) by (apply lookup_lt_is_Some_1; eauto).
  destruct cur as [|[|[|cur]]]; simpl in Hcur; try lia;
    (cbv zeta; split; [reflexivity|]; split; [reflexivity|];
     split; [reflexivity|]; split; [|reflexivity];
     intros [|[|[|i]]] Hi; simpl in Hi; try lia; reflexivity).
Qed.

Lemma carousel_entry_and_progress_witness :
  texts (carouselView 2
           {| question := "Which payment methods do you accept?";
              answer := "We accept all major credit and debit cards, as well as bank transfers, USSD, and mobile money." |})
  = ["AliComms"; "Which payment methods do you accept?";
     "We accept all major credit and debit cards, as well as bank transfers, USSD, and mobile money.";
     "Get Started"].
Proof.
  refine (proj1 (carousel_entry_and_progress 2 _ _)). reflexivity.
Defined.

(** ** Further lemmas on the browser pane *)

Module PaneMore.
Import Pane Observe.

Lemma lastMessage_snoc (acc : option string) (es : list Event) (e : Event) :
  lastMessage acc (es ++ [e])
  = match message e with Some m => Some m | None => lastMessage acc es end.
Proof. unfold lastMessage. rewrite fold_left_app. reflexivity. Qed.

Lemma step_errorMessage (e : Event) (s : State) :
  errorMessage (step e s)
  = match message e with Some m => Some m | None => errorMessage s end.
Proof.
  destruct e; simpl; try reflexivity. destruct (reporting s); reflexivity.
Qed.

Lemma run_errorMessage (es : list Event) (s : State) :
  errorMessage (run es s) = lastMessage (errorMessage s) es.
Proof.
  revert s. induction es as [|e es IH]; intros s; [reflexivity|].
  simpl. rewrite IH, step_errorMessage. reflexivity.
Qed.

Lemma message_truthy (e : Event) (m : string) :
  message e = Some m -> truthy (Some m) = true.
Proof. destruct e; simpl; intros H; inversion H; reflexivity. Qed.

Lemma lastMessage_truthy (acc : option string) (es : list Event) :
  truthy acc = true -> truthy (lastMessage acc es) = true.
Proof.
  revert acc. induction es as [|e es IH]; intros acc H; [exact H|].
  simpl. apply IH. destruct (message e) as [m|] eqn:Hm; [|exact H].
  apply (message_truthy e m Hm).
Qed.

Lemma lastMessage_none_or_truthy (es : list Event) :
  lastMessage None es = None \/ truthy (lastMessage None es) = true.
Proof.
  induction es as [|e es IH] using rev_ind; [left; reflexivity|].
  rewrite lastMessage_snoc. destruct (message e) as [m|] eqn:Hm; [|exact IH].
  right. apply (message_truthy e m Hm).
Qed.

Lemma show_number_inj (a b : N) : show_number a = show_number b -> a = b.
Proof.
  unfold show_number. intros H.
  assert (Hnn : forall n, N.to_uint n <> Decimal.Nil).
  { intros [|p]; [discriminate|apply DecimalPos.Unsigned.to_uint_nonnil]. }
  apply DecimalN.Unsigned.to_uint_inj.
  pose proof (NilZero.usu _ (Hnn a)) as Ha.
  pose proof (NilZero.usu _ (Hnn b)) as Hb.
  rewrite H in Ha. congruence.
Qed.

End PaneMore.

(** X7.  No event clears [errorMessage].  From a fresh pane, after any
    events at all, the banners on screen are none if no load or HTTP
    error has come and otherwise exactly the message of the last one,
    whatever load-end or render-error events came after it; and a pane
    that shows a banner shows one after any further events. *)
Theorem banner_never_dismissed (s : Pane.State) (es : list Pane.Event) :
  Pane.banners (Pane.run es Pane.initial)
  = match Observe.lastMessage None es with Some m => [m] | None => [] end
  /\ (truthy (Pane.errorMessage s) = true ->
      exists m, Pane.banners (Pane.run es s) = [m]
                /\ Observe.lastMessage (Pane.errorMessage s) es = Some m).
Proof.
  split.
  - rewrite PaneFacts.banners_of_message, PaneMore.run_errorMessage.
    change (Pane.errorMessage Pane.initial) with (@None string).
    destruct (PaneMore.lastMessage_none_or_truthy es) as [-> | Ht];
      [reflexivity|].
    destruct (Observe.lastMessage None es) as [m|]; [|reflexivity].
    rewrite Ht. reflexivity.
  - intros Ht.
    pose proof (PaneMore.lastMessage_truthy _ es Ht) as Hl.
    rewrite PaneFacts.banners_of_message, PaneMore.run_errorMessage.
    destruct (Observe.lastMessage (Pane.errorMessage s) es) as [m|];
      [|discriminate].
    exists m. rewrite Hl. split; reflexivity.
Qed.

Lemma banner_never_dismissed_witness :
  exists m,
    Pane.banners
      (Pane.run [Pane.LoadEnd; Pane.LoadError "net::ERR_FAILED";
                 Pane.RenderError "NSURLErrorDomain"; Pane.LoadEnd]
                (Pane.run [Pane.HttpError 500] Pane.initial)) = [m]
    /\ Observe.lastMessage
         (Pane.errorMessage (Pane.run [Pane.HttpError 500] Pane.initial))
         [Pane.LoadEnd; Pane.LoadError "net::ERR_FAILED";
          Pane.RenderError "NSURLErrorDomain"; Pane.LoadEnd] = Some m.
Proof.
  refine (proj2 (banner_never_dismissed
                   (Pane.run [Pane.HttpError 500] Pane.initial)
                   [Pane.LoadEnd; Pane.LoadError "net::ERR_FAILED";
                    Pane.RenderError "NSURLErrorDomain"; Pane.LoadEnd]) _).
  reflexivity.
Defined.

(** X8.  A banner text comes from one error only: two load or HTTP
    error events that leave the same message are the same event, so a
    load error is never displayed as an HTTP error and two status codes
    never share a text. *)
Theorem banner_identifies_error (e1 e2 : Pane.Event) (m : string) :
  Pane.message e1 = Some m -> Pane.message e2 = Some m -> e1 = e2.
Proof.
  destruct e1 as [|d1|c1|n1], e2 as [|d2|c2|n2]; simpl;
    intros H1 H2; try discriminate; rewrite <- H2 in H1; clear H2.
  - simpl in H1. injection H1 as H. change (d1 = d2) in H.
    rewrite H. reflexivity.
  - simpl in H1. discriminate H1.
  - simpl in H1. discriminate H1.
  - simpl in H1. injection H1 as H.
    change (show_number c1 = show_number c2) in H.
    f_equal. apply PaneMore.show_number_inj, H.
Qed.

Lemma banner_identifies_error_witness :
  Pane.HttpError 404 = Pane.HttpError 404.
Proof.
  exact (banner_identifies_error (Pane.HttpError 404) (Pane.HttpError 404)
           "HTTP Error: 404" eq_refl eq_refl).
Defined.

(** ** The walk of the index *)

Module IndexFacts.
Import Splash SplashFacts Observe SplashInvariants Reach.

(** Callbacks that captured an index no greater than [i] take the
    index no further than the entry after [i], and never to the first
    entry. *)
Lemma advance_bound (alive : bool) (i cur : nat) (q : list Timer) :
  Forall (fun x => forall c v, callback x = AdvanceFrom c v ->
                               c <= i /\ c + 1 < length FAQs) q ->
  (cur <= S i -> advance alive cur q <= S i)
  /\ (cur <> 0 -> advance alive cur q <> 0).
Proof.
  intros H. revert cur. induction H as [|x q Hx _ IH]; intros cur;
    [split; intros Hc; exact Hc|].
  rewrite advance_cons. destruct (callback x) as [|c v] eqn:Hcb;
    [apply IH|].
  destruct (Hx c v eq_refl) as (Hle & Hlt).
  change (length FAQs) with 3 in *.
  destruct alive; [|apply IH].
  rewrite (Nat.mod_small (c + 1) 3) by lia.
  destruct (IH (c + 1)) as (IH1 & IH2).
  split; intros _; [apply IH1|apply IH2]; lia.
Qed.

Lemma queued_bound (f : Timer -> bool) (s : State) :
  settled (timers s) s ->
  Forall (fun x => forall c v, callback x = AdvanceFrom c v ->
                               c <= currentFAQ s /\ c + 1 < length FAQs)
         (List.filter f (timers s)).
Proof.
  intros (Hq & _). apply filter_Forall.
  rewrite List.Forall_forall in *. intros x Hx c v Hcb.
  pose proof (Hq x Hx) as Hqx. unfold queued in Hqx. rewrite Hcb in Hqx.
  tauto.
Qed.

Lemma step_walk (e : Event) (s : State) :
  settled (timers s) s ->
  currentFAQ (step e s) <= S (currentFAQ s)
  /\ (currentFAQ s <> 0 -> currentFAQ (step e s) <> 0).
Proof.
  intros Hs.
  assert (Hother : e <> Press -> (forall ms, e <> Elapse ms) ->
                   currentFAQ (step e s) <= S (currentFAQ s)
                   /\ (currentFAQ s <> 0 -> currentFAQ (step e s) <> 0)).
  { intros Hnp Hne. rewrite (step_currentFAQ e s Hnp Hne). split; [lia|tauto]. }
  destruct e as [| | |ms|]; try (apply Hother; discriminate); cbn [step].
  - destruct (pressed s) as [[c|]|]; cbn [invoke];
      [|unfold onDone; cbn [currentFAQ emit]; split; [lia|tauto]
       |split; [lia|tauto]].
    rewrite press_currentFAQ.
    destruct (advance_bound (mounted s) (currentFAQ s) (currentFAQ s) _
                (queued_bound (runsOn (fadeAnim s)) s Hs)) as (H1 & H2).
    split; [apply H1; lia|exact H2].
  - rewrite elapse_currentFAQ.
    destruct (advance_bound (mounted s) (currentFAQ s) (currentFAQ s) _
                (queued_bound (is_due (now s + ms)) s Hs)) as (H1 & H2).
    split; [apply H1; lia|exact H2].
Qed.

Lemma run_nonzero (es : list Event) (s : State) :
  settled (timers s) s -> currentFAQ s <> 0 -> currentFAQ (run es s) <> 0.
Proof.
  revert s. induction es as [|e es IH]; intros s Hs Hc; [exact Hc|].
  apply IH; [apply step_settled, Hs|apply (step_walk e s Hs), Hc].
Qed.

End IndexFacts.

(** X9.  Whatever the presses and however they interleave with the
    completion of fade sequences, no event takes [currentFAQ] more than
    one entry further, and once past the first entry it never comes
    back to it.  It can step back from the last entry to the second:
    two double presses 100 ms apart take it to the last entry, with
    "Get Started" on the touchable, and the completion of a stopped
    sequence's successor then takes it back, with "Next" again. *)
Theorem index_never_returns_to_first
    (disk : gmap string string) (es : list Event) (e : Event) :
  let s := run es (mount disk) in
  currentFAQ (step e s) <= S (currentFAQ s)
  /\ (currentFAQ s <> 0 -> forall es', currentFAQ (run es' s) <> 0)
  /\ (let r := run [Resolve; Resolve; Press; Press; Elapse 100; Press; Press]
                   (mount ∅) in
      currentFAQ r = 2
      /\ pressed r = Some OnDoneProp
      /\ currentFAQ (step (Elapse 500) r) = 1
      /\ pressed (step (Elapse 500) r) = Some (HandleNextFAQ 1)).
Proof.
  cbv zeta. pose proof (Reach.reach_settled disk es) as Hs.
  split; [apply (IndexFacts.step_walk e _ Hs)|]. split.
  - intros Hc es'. apply IndexFacts.run_nonzero; assumption.
  - vm_compute. repeat split.
Qed.

Lemma index_never_returns_to_first_witness :
  currentFAQ
    (run [Press; Elapse 600; Press; Press; Elapse 5000]
         (run [Resolve; Resolve; Press; Press] (mount ∅))) <> 0.
Proof.
  refine (proj1 (proj2 (index_never_returns_to_first ∅
                          [Resolve; Resolve; Press; Press] Press))
            _ [Press; Elapse 600; Press; Press; Elapse 5000]).
  vm_compute. discriminate.
Defined.

(** X10.  The entry animation (parallel fade and slide, 500 ms) is not
    started before the carousel is on, and while it is on it has been
    started at least once for the carousel coming on and once for every
    entry reached since: at least [currentFAQ + 1] times.  It can be
    more: after two double presses 100 ms apart and the step back that
    follows, it has been started four times with the index at 1. *)
Theorem entry_animation_at_least_per_index
    (disk : gmap string string) (es : list Event) :
  let s := run es (mount disk) in
  match isFirstTime s with
  | Some true => S (currentFAQ s) <= Observe.entries (trace s)
  | _ => Observe.entries (trace s) = 0
  end
  /\ (let r := run [Resolve; Resolve; Press; Press; Elapse 100; Press; Press;
                    Elapse 500] (mount ∅) in
      isFirstTime r = Some true
      /\ currentFAQ r = 1
      /\ Observe.entries (trace r) = 4).
Proof.
  cbv zeta. split; [|vm_compute; repeat split].
  destruct (Reach.reach_settled disk es) as (_ & _ & _ & H).
  destruct (isFirstTime (run es (mount disk))) as [[|]|]; tauto.
Qed.

(** X11.  A second press made while the first fade sequence is still
    running is bound to the same closure: it starts a second sequence
    that captured the same index, and when both have completed the
    index has moved by one, not by two. *)
Theorem second_press_in_flight_absorbed (s : State) (d : N) :
  mounted s = true ->
  isFirstTime s = Some true ->
  currentFAQ s < length FAQs - 1 ->
  timers s = [] ->
  (d < 600)%N ->
  let s2 := run [Press; Elapse d] s in
  let s' := run [Press; Elapse 600] s2 in
  pressed s = Some (HandleNextFAQ (currentFAQ s))
  /\ pressed s2 = Some (HandleNextFAQ (currentFAQ s))
  /\ currentFAQ s2 = currentFAQ s
  /\ currentFAQ s' = currentFAQ s + 1
  /\ timers s' = [].
Proof.
  intros Hm Hf Hlt Ht Hd.
  assert (Hnext : forall x, mounted x = true -> isFirstTime x = Some true ->
                    currentFAQ x = currentFAQ s ->
                    pressed x = Some (HandleNextFAQ (currentFAQ s))).
  { intros x Hmx Hfx Hcx.
    rewrite (SplashPaths.carousel_pressed x Hmx Hfx) by (rewrite Hcx; simpl in *; lia).
    rewrite Hcx.
    destruct (Nat.ltb_spec (currentFAQ s) (length FAQs - 1)); [reflexivity|lia]. }
  pose proof (Hnext s Hm Hf eq_refl) as Hp.
  cbv zeta.
  change (run [Press; Elapse 600] ?x) with (elapse 600 (step Press x)).
  change (run [Press; Elapse d] s) with (elapse d (step Press s)).
  change (step Press s) with (match pressed s with Some h => invoke h s | None => s end).
  rewrite Hp. cbn [invoke].
  set (c := currentFAQ s) in *.
  set (t1 := {| id := nextTimer s; due := (now s + 600)%N;
                callback := AdvanceFrom c (fadeAnim s) |}).
  (* the first press, on an idle queue *)
  assert (E1 : handleNextFAQ c s
               = with_nextTimer (S (nextTimer s))
                   (with_timers [t1] (emit (AnimatedSequence fadeOutIn) s))).
  { unfold handleNextFAQ. rewrite Ht. reflexivity. }
  rewrite E1.
  (* the wait: the first sequence is still running *)
  assert (Hnd : is_due (now s + d) t1 = false).
  { unfold is_due. cbn [due t1]. apply N.leb_gt. lia. }
  set (s1 := with_nextTimer _ _).
  assert (E2 : elapse d s1 = with_now (now s + d) s1).
  { unfold elapse. cbn [timers now s1 with_nextTimer with_timers emit List.filter].
    rewrite Hnd. reflexivity. }
  rewrite E2. set (s2 := with_now _ s1).
  pose proof (Hnext s2 Hm Hf eq_refl) as Hp2.
  change (step Press s2)
    with (match pressed s2 with Some h => invoke h s2 | None => s2 end).
  rewrite Hp2. cbn [invoke].
  (* the second press stops the first sequence *)
  set (t2 := {| id := S (nextTimer s); due := (now s + d + 600)%N;
                callback := AdvanceFrom c (fadeAnim s) |}).
  assert (Hc1 : c + 1 <> c) by lia.
  assert (Hsmall : (c + 1) mod length FAQs = c + 1)
    by (apply Nat.mod_small; simpl in *; lia).
  assert (E3 : handleNextFAQ c s2
               = with_nextTimer (S (S (nextTimer s)))
                   (with_timers [t2]
                      (emit (AnimatedParallel 500)
                         (with_fadeAnim (S (fadeAnim s))
                            (with_currentFAQ (c + 1)
                               (with_timers []
                                  (emit (AnimatedSequence fadeOutIn) s2))))))).
  { unfold handleNextFAQ.
    cbn [fadeAnim timers now nextTimer s2 s1 with_now with_nextTimer
         with_timers emit List.filter runsOn callback t1].
    rewrite Nat.eqb_refl. cbn [negb fold_left].
    change (runCallback (callback t1) ?x)
      with (setCurrentFAQ ((c + 1) mod length FAQs) x).
    rewrite Hsmall.
    rewrite (Reach.setCurrentFAQ_moves (c + 1)); [reflexivity|exact Hm|exact Hf|].
    exact Hc1. }
  rewrite E3. set (s3 := with_nextTimer _ _).
  assert (Hd2 : is_due (now s3 + 600) t2 = true).
  { unfold is_due. cbn [due t2]. apply N.leb_le.
    change (now s3) with (now s + d)%N. lia. }
  split; [reflexivity|]. split; [reflexivity|]. split; [reflexivity|].
  split.
  - rewrite SplashInvariants.elapse_currentFAQ.
    change (timers s3) with [t2]. cbn [List.filter]. rewrite Hd2.
    change (mounted s3) with (mounted s). rewrite Hm.
    unfold Observe.advance. cbn [fold_left callback t2]. exact Hsmall.
  - destruct (SplashFacts.elapse_fields 600 s3) as (_ & _ & _ & _ & _ & _ & ->).
    change (timers s3) with [t2]. cbn [List.filter]. rewrite Hd2. reflexivity.
Qed.

Lemma second_press_in_flight_absorbed_witness :
  currentFAQ (run [Press; Elapse 600]
                (run [Press; Elapse 250] (run [Resolve; Resolve] (mount ∅))))
  = 0 + 1.
Proof.
  refine (proj1 (proj2 (proj2 (proj2
            (second_press_in_flight_absorbed
               (run [Resolve; Resolve] (mount ∅)) 250 eq_refl eq_refl _ eq_refl _))))).
  - vm_compute. lia.
  - reflexivity.
Defined.

(** ** The application: splash, hand-over, pane *)

Module AppFacts.
Import Splash SplashFacts Observe.

Lemma frame_fields (s s' : State) :
  frame s' = frame s ->
  isFirstTime s' = isFirstTime s /\ mounted s' = mounted s
  /\ suspended s' = suspended s /\ timers s' = timers s.
Proof.
  unfold frame. intros H. injection H as H1 H2 H3 H4 H5 H6 H7.
  repeat split; assumption.
Qed.

Lemma frame_budget (s s' : State) : frame s' = frame s -> budget s' = budget s.
Proof.
  intros H. destruct (frame_fields s s' H) as (_ & _ & Hs & Ht).
  unfold budget. rewrite Hs, Ht. reflexivity.
Qed.

Lemma unmount_facts (s : State) :
  mounted (unmount s) = false
  /\ onDoneCount (unmount s) = onDoneCount s
  /\ budget (unmount s) <= budget s.
Proof.
  unfold unmount, budget, onDoneCount.
  destruct (mounted s) eqn:Hm; [|repeat split; [exact Hm|lia]].
  destruct (cleanup s) as [timer|]; simpl; rewrite ?calls_app; simpl;
    repeat split; try lia.
  pose proof (pendingCalls_filter_le
                (fun x => negb (Nat.eqb (id x) timer)) (timers s)). lia.
Qed.

Lemma step_mounted (e : Event) (s : State) :
  instant e -> mounted (step e s) = mounted s.
Proof.
  unfold instant. intros [-> | [-> | ->]]; simpl.
  - destruct (suspended s); [| |reflexivity].
    + unfold afterGetItem. destruct (truthy _); reflexivity.
    + unfold afterSetItem, setIsFirstTime, entryAnimation. simpl.
      destruct (mounted s) eqn:Hm; [|exact Hm].
      destruct (isFirstTime s) as [[|]|]; simpl; exact Hm.
  - destruct (suspended s); reflexivity.
  - destruct (pressed s) as [[c|]|]; cbn [invoke]; try reflexivity.
    apply handleNextFAQ_fields.
Qed.

Lemma bump_bound (e : Event) (s : State) :
  bump e s <= 1 /\ (bump e s = 1 -> isFirstTime s = Some true).
Proof.
  unfold bump. destruct e; try (split; [lia|discriminate]).
  destruct (pressed s) as [[c|]|] eqn:Hp; try (split; [lia|discriminate]).
  split; [lia|]. intros _.
  unfold pressed, render in Hp. destruct (mounted s); [|discriminate].
  destruct (isFirstTime s) as [[|]|]; [reflexivity|discriminate|discriminate].
Qed.

(** Coming onto the carousel uses up what [checkFirstTime] could still
    have invoked. *)
Lemma enter_budget (e : Event) (s : State) :
  instant e ->
  isFirstTime s <> Some true -> isFirstTime (step e s) = Some true ->
  budget (step e s) + 1 = budget s.
Proof.
  unfold instant. intros [-> | [-> | ->]] Hn; simpl.
  - destruct (suspended s) eqn:Hs; [| |intros H; congruence].
    + unfold afterGetItem. destruct (truthy _); simpl; intros H; congruence.
    + intros _. unfold budget. simpl.
      destruct (setIsFirstTime_count true
                  (with_storage (<[key:="true"]> (storage s)) s))
        as (_ & Ht & _).
      simpl in Ht. rewrite Ht, Hs. lia.
  - destruct (suspended s); simpl; intros H; congruence.
  - destruct (pressed s) as [[c|]|]; cbn [invoke];
      [|simpl; intros H; congruence|intros H; congruence].
    destruct (handleNextFAQ_fields c s) as (-> & _). intros H. congruence.
Qed.

Lemma dead_step (e : Event) (s : State) :
  instant e -> mounted s = false -> budget s = 0 -> step e s = s.
Proof.
  intros He Hm Hb.
  assert (Hs : suspended s = Returned).
  { unfold budget in Hb. destruct (suspended s); [lia|lia|reflexivity]. }
  unfold instant in He. destruct He as [-> | [-> | ->]]; simpl.
  - rewrite Hs. reflexivity.
  - rewrite Hs. reflexivity.
  - unfold pressed. rewrite Hm. reflexivity.
Qed.

(** *** The invariant of the application *)

Lemma start_coherent (disk : gmap string string) :
  App.coherent [] (App.start disk).
Proof.
  unfold App.coherent. simpl.
  repeat split; try reflexivity; try lia. intros H. discriminate H.
Qed.

Lemma deliver_step (e : Event) (a : App.State) :
  instant e -> App.coherent [] a -> App.coherent [] (App.deliver (step e) a).
Proof.
  intros He. unfold App.coherent, App.deliver.
  destruct (App.showSplash a) eqn:Hshow; cbn [andb pendingCalls Nat.add].
  - intros (Hm & Hc & Hb & Hcar & Hp).
    pose proof (step_upper e (App.splash a)) as Hup.
    pose proof (step_lower e (App.splash a)) as Hlo.
    destruct (bump_bound e (App.splash a)) as (Hb1 & Hb2).
    rewrite Hc in *.
    assert (Hroom : budget (App.splash a) + bump e (App.splash a) <= 1).
    { destruct (Nat.eq_dec (bump e (App.splash a)) 1) as [E|E]; [|lia].
      rewrite (Hcar (Hb2 E)). lia. }
    destruct (Nat.ltb_spec 0 (onDoneCount (step e (App.splash a)))) as [Hpos|Hzero];
      cbn [App.showSplash App.splash App.pane].
    + destruct (unmount_facts (step e (App.splash a))) as (U1 & U2 & U3).
      rewrite U1, U2. repeat split; try lia. discriminate.
    + rewrite (step_mounted e _ He). repeat split; try assumption; try lia.
      intros Hcar'.
      destruct (decide (isFirstTime (App.splash a) = Some true)) as [Hf|Hf].
      * pose proof (Hcar Hf). lia.
      * pose proof (enter_budget e _ He Hf Hcar'). lia.
  - intros (Hm & Hc & Hb & Hp).
    rewrite (dead_step e _ He Hm) by lia.
    cbn [App.showSplash App.splash App.pane]. repeat split; assumption.
Qed.

Lemma deliver_callback (x : Timer) (queued : list Timer) (a : App.State) :
  App.coherent (x :: queued) a ->
  App.coherent queued (App.deliver (runCallback (callback x)) a).
Proof.
  unfold App.coherent, App.deliver.
  pose proof (runCallback_count (callback x) (App.splash a)) as Hcount.
  pose proof (runCallback_frame (callback x) (App.splash a)) as Hframe.
  destruct (frame_fields _ _ Hframe) as (Ef & Em & _ & _).
  pose proof (frame_budget _ _ Hframe) as Eb.
  destruct (App.showSplash a) eqn:Hshow; cbn [andb pendingCalls].
  - intros (Hm & Hc & Hb & Hcar & Hp). rewrite Hc in *.
    destruct (callback x) as [|c v] eqn:Hcb.
    + replace (0 <? onDoneCount (runCallback CallOnDone (App.splash a)))%nat
        with true by (symmetry; apply Nat.ltb_lt; lia).
      cbn [App.showSplash App.splash App.pane].
      destruct (unmount_facts (runCallback CallOnDone (App.splash a)))
        as (U1 & U2 & U3).
      rewrite U1, U2. repeat split; try lia; try discriminate.
    + replace (0 <? onDoneCount (runCallback (AdvanceFrom c v) (App.splash a)))%nat
        with false by (symmetry; apply Nat.ltb_ge; lia).
      cbn [App.showSplash App.splash App.pane].
      rewrite Em, Ef, Eb. repeat split; try assumption; try lia;
        intros Hcar'; pose proof (Hcar Hcar'); lia.
  - intros (Hm & Hc & Hb & Hp).
    cbn [App.showSplash App.splash App.pane].
    destruct (callback x) as [|c v] eqn:Hcb; [lia|].
    rewrite Em, Eb. repeat split; try assumption; lia.
Qed.

Lemma fire_coherent (ready : list Timer) (a : App.State) :
  App.coherent ready a ->
  App.coherent []
    (fold_left (fun a x => App.deliver (runCallback (callback x)) a) ready a).
Proof.
  revert a. induction ready as [|x r IH]; intros a H; [exact H|].
  cbn [fold_left]. apply IH, deliver_callback, H.
Qed.

Lemma elapse_coherent (ms : N) (a : App.State) :
  App.coherent [] a -> App.coherent [] (App.elapse ms a).
Proof.
  intros H. unfold App.elapse. apply fire_coherent.
  unfold App.coherent in *. cbn [App.showSplash App.splash App.pane].
  assert (Hb : pendingCalls (List.filter (is_due (now (App.splash a) + ms))
                               (timers (App.splash a)))
               + budget (with_now (now (App.splash a) + ms)
                           (with_timers
                              (List.filter
                                 (fun x => negb (is_due (now (App.splash a) + ms) x))
                                 (timers (App.splash a)))
                              (App.splash a)))
               = budget (App.splash a)).
  { unfold budget. simpl.
    rewrite (pendingCalls_split (is_due (now (App.splash a) + ms))
               (timers (App.splash a))). lia. }
  rewrite Hb. cbn [pendingCalls Nat.add] in H.
  destruct (App.showSplash a); exact H.
Qed.

Lemma step_coherent (e : App.Event) (a : App.State) :
  App.coherent [] a -> App.coherent [] (App.step e a).
Proof.
  intros H. destruct e as [| | |ms|pe]; cbn [App.step].
  - apply deliver_step; [left; reflexivity|exact H].
  - apply deliver_step; [right; left; reflexivity|exact H].
  - apply deliver_step; [right; right; reflexivity|exact H].
  - apply elapse_coherent, H.
  - unfold App.coherent in *. cbn [App.showSplash App.splash App.pane].
    destruct (App.showSplash a).
    + destruct H as (H1 & H2 & H3 & H4 & H5). rewrite H5.
      repeat split; assumption.
    + destruct H as (H1 & H2 & H3 & H4).
      repeat split; try assumption.
      destruct (App.pane a); [discriminate|congruence].
Qed.

Lemma run_coherent (es : list App.Event) (a : App.State) :
  App.coherent [] a -> App.coherent [] (App.run es a).
Proof.
  revert a. induction es as [|e es IH]; intros a H; [exact H|].
  apply IH, step_coherent, H.
Qed.

(** *** After the hand-over *)

Lemma deliver_final (f : State -> State) (a : App.State) :
  App.showSplash a = false ->
  App.showSplash (App.deliver f a) = false
  /\ App.pane (App.deliver f a) = App.pane a.
Proof. intros H. unfold App.deliver. rewrite H. split; reflexivity. Qed.

Lemma fire_final (ready : list Timer) (a : App.State) :
  App.showSplash a = false ->
  App.showSplash
    (fold_left (fun a x => App.deliver (runCallback (callback x)) a) ready a)
  = false
  /\ App.pane
       (fold_left (fun a x => App.deliver (runCallback (callback x)) a) ready a)
     = App.pane a.
Proof.
  revert a. induction ready as [|x r IH]; intros a H; [split; [exact H|reflexivity]|].
  cbn [fold_left].
  destruct (deliver_final (runCallback (callback x)) a H) as (H1 & H2).
  destruct (IH _ H1) as (H3 & H4). rewrite H3, H4, H2. split; reflexivity.
Qed.

Lemma step_final (e : App.Event) (a : App.State) :
  App.showSplash a = false ->
  App.showSplash (App.step e a) = false
  /\ App.pane (App.step e a)
     = match e with
       | App.Engine pe => Pane.step pe <$> App.pane a
       | _ => App.pane a
       end.
Proof.
  intros H. destruct e as [| | |ms|pe]; cbn [App.step];
    try (apply deliver_final, H).
  - unfold App.elapse.
    exact (fire_final _ (App.mk (App.showSplash a) _ (App.pane a)) H).
  - split; [exact H|reflexivity].
Qed.

Lemma run_final (es : list App.Event) (a : App.State) :
  App.showSplash a = false ->
  App.showSplash (App.run es a) = false
  /\ App.pane (App.run es a)
     = Pane.run (App.engineEvents es) <$> App.pane a.
Proof.
  revert a. induction es as [|e es IH]; intros a H.
  - simpl. split; [exact H|]. destruct (App.pane a); reflexivity.
  - destruct (step_final e a H) as (H1 & H2).
    destruct (IH _ H1) as (H3 & H4).
    change (App.run (e :: es) a) with (App.run es (App.step e a)).
    split; [exact H3|]. rewrite H4, H2.
    destruct e; simpl; try reflexivity.
    destruct (App.pane a); reflexivity.
Qed.

(** No tree of the splash holds a [WebView]. *)
Lemma splash_no_webview (s : State) (tree : Element) :
  render s = Some tree -> webviews tree = [].
Proof.
  unfold render. destruct (isFirstTime s) as [[|]|].
  - destruct (FAQs !! currentFAQ s) as [faq|]; simpl; [|discriminate].
    intros H. inversion H. reflexivity.
  - intros H. inversion H. reflexivity.
  - intros H. inversion H. reflexivity.
Qed.

End AppFacts.

(** X12.  Under [App] the splash's [onDone] is invoked at most once:
    [showSplash] is on exactly as long as it has not been invoked, the
    splash is mounted exactly as long as [showSplash] is on, the pane
    is mounted exactly from then on, and once the splash is unmounted
    it has no invocation left to make. *)
Theorem app_hands_over_once (disk : gmap string string) (es : list App.Event) :
  let a := App.run es (App.start disk) in
  App.onDoneCount a = (if App.showSplash a then 0 else 1)
  /\ mounted (App.splash a) = App.showSplash a
  /\ (if App.showSplash a then App.pane a = None
      else exists p, App.pane a = Some p)
  /\ budget (App.splash a) <= (if App.showSplash a then 1 else 0).
Proof.
  cbv zeta.
  pose proof (AppFacts.run_coherent es _ (AppFacts.start_coherent disk)) as H.
  unfold App.coherent, App.onDoneCount in *. cbn [pendingCalls Nat.add] in H.
  destruct (App.showSplash (App.run es (App.start disk))).
  - destruct H as (H1 & H2 & H3 & _ & H5). repeat split; assumption.
  - destruct H as (H1 & H2 & H3 & H4). repeat split; try assumption; try lia.
    destruct (App.pane (App.run es (App.start disk))) as [p|];
      [exists p; reflexivity|congruence].
Qed.

(** X13.  The hand-over is final and the two components never share
    the screen.  Once [showSplash] is off it stays off whatever comes;
    from then on the pane is moved by the engine's events alone; and
    at every point the screen holds no [WebView] while the splash is
    shown and exactly the one on the fixed address afterwards. *)
Theorem handover_is_final
    (disk : gmap string string) (es1 es2 : list App.Event) :
  let a := App.run es1 (App.start disk) in
  (if App.showSplash a
   then App.webviewsOnScreen a = []
   else exists p,
          App.pane a = Some p
          /\ App.webviewsOnScreen a
             = [WebView "https://alicomms.com/" (Pane.shown (Pane.engine p))])
  /\ (App.showSplash a = false ->
      App.showSplash (App.run es2 a) = false
      /\ App.pane (App.run es2 a)
         = Pane.run (App.engineEvents es2) <$> App.pane a).
Proof.
  cbv zeta. split.
  - pose proof (AppFacts.run_coherent es1 _ (AppFacts.start_coherent disk)) as H.
    unfold App.coherent, App.webviewsOnScreen, App.render in *.
    destruct (App.showSplash (App.run es1 (App.start disk))).
    + destruct (render (App.splash (App.run es1 (App.start disk))))
        as [tree|] eqn:Hr; [|reflexivity].
      apply (AppFacts.splash_no_webview _ _ Hr).
    + destruct H as (_ & _ & _ & Hp).
      destruct (App.pane (App.run es1 (App.start disk))) as [p|];
        [|congruence].
      exists p. split; [reflexivity|]. simpl. apply PaneFacts.render_webview.
  - intros H. apply AppFacts.run_final, H.
Qed.

Lemma handover_is_final_witness :
  App.pane
    (App.run [App.Press; App.Engine (Pane.HttpError 502); App.Elapse 10]
             (App.run [App.Reject] (App.start ∅)))
  = Pane.run
      (App.engineEvents
         [App.Press; App.Engine (Pane.HttpError 502); App.Elapse 10])
    <$> App.pane (App.run [App.Reject] (App.start ∅)).
Proof.
  refine (proj2 (proj2 (handover_is_final ∅ [App.Reject]
            [App.Press; App.Engine (Pane.HttpError 502); App.Elapse 10]) _)).
  reflexivity.
Defined.

(** ** The application against the splash on its own *)

Module AppPaths.
Import Splash SplashFacts.

Lemma count_grows (es : list Event) (s : State) :
  onDoneCount s <= onDoneCount (run es s).
Proof. pose proof (run_bounds es s). lia. Qed.

(** While no callback invokes [onDone], running the due callbacks
    under [App] is running them on the splash. *)
Lemma fire_agree (ready : list Timer) (s : State) (p : option Pane.State) :
  onDoneCount s = 0 ->
  let sF := fold_left (fun s x => runCallback (callback x) s) ready s in
  let aF := fold_left (fun a x => App.deliver (runCallback (callback x)) a)
              ready (App.mk true s p) in
  (onDoneCount sF = 0 -> aF = App.mk true sF p)
  /\ (0 < onDoneCount sF -> App.showSplash aF = false).
Proof.
  revert s. induction ready as [|x r IH]; intros s Hc; cbv zeta.
  - cbn [fold_left]. split; [reflexivity|lia].
  - cbn [fold_left].
    pose proof (runCallback_count (callback x) s) as Hx.
    pose proof (fire_count r (runCallback (callback x) s)) as Hr.
    unfold App.deliver at 2 4. cbn [App.showSplash App.splash App.pane andb].
    rewrite Hc.
    destruct (Nat.ltb_spec 0 (onDoneCount (runCallback (callback x) s)))
      as [Hpos|Hzero].
    + split; [lia|]. intros _. apply AppFacts.fire_final. reflexivity.
    + apply IH. lia.
Qed.

Lemma step_agree (e : App.Event) (e' : Event) (s : State)
    (p : option Pane.State) :
  App.toSplash e = Some e' ->
  onDoneCount s = 0 ->
  (onDoneCount (step e' s) = 0 ->
   App.step e (App.mk true s p) = App.mk true (step e' s) p)
  /\ (0 < onDoneCount (step e' s) ->
      App.showSplash (App.step e (App.mk true s p)) = false).
Proof.
  intros He Hc.
  assert (Hdel : forall f : State -> State,
            (onDoneCount (f s) = 0 ->
             App.deliver f (App.mk true s p) = App.mk true (f s) p)
            /\ (0 < onDoneCount (f s) ->
                App.showSplash (App.deliver f (App.mk true s p)) = false)).
  { intros f. unfold App.deliver.
    cbn [App.showSplash App.splash App.pane andb]. rewrite Hc.
    destruct (Nat.ltb_spec 0 (onDoneCount (f s))); split; intros; try lia;
      reflexivity. }
  destruct e as [| | |ms|pe]; simpl in He; inversion He; subst e';
    cbn [App.step]; try apply Hdel.
  unfold App.elapse. cbn [App.showSplash App.splash App.pane step].
  apply (fire_agree _ (with_now (now s + ms) (with_timers _ s)) p).
  exact Hc.
Qed.

Lemma run_agree (es : list App.Event) (s : State) (p : option Pane.State) :
  onDoneCount s = 0 ->
  (onDoneCount (run (App.alone es) s) = 0 ->
   exists p', App.run es (App.mk true s p)
              = App.mk true (run (App.alone es) s) p')
  /\ (0 < onDoneCount (run (App.alone es) s) ->
      App.showSplash (App.run es (App.mk true s p)) = false).
Proof.
  revert s p. induction es as [|e es IH]; intros s p Hc.
  - simpl. split; [eauto|lia].
  - change (App.run (e :: es) ?a) with (App.run es (App.step e a)).
    destruct (App.toSplash e) as [e'|] eqn:He.
    + assert (Hal : App.alone (e :: es) = e' :: App.alone es).
      { unfold App.alone. simpl. rewrite He. reflexivity. }
      rewrite Hal.
      change (run (e' :: App.alone es) s) with (run (App.alone es) (step e' s)).
      destruct (step_agree e e' s p He Hc) as (Hz & Hp).
      pose proof (count_grows (App.alone es) (step e' s)) as Hmono.
      destruct (Nat.eq_dec (onDoneCount (step e' s)) 0) as [E|E].
      * rewrite (Hz E). apply IH, E.
      * split; [lia|]. intros _.
        apply AppFacts.run_final, Hp. lia.
    + assert (Hal : App.alone (e :: es) = App.alone es).
      { unfold App.alone. simpl. rewrite He. reflexivity. }
      rewrite Hal. destruct e; try discriminate He.
      cbn [App.step App.showSplash App.splash App.pane].
      apply IH, Hc.
Qed.

(** [showSplash] is on exactly while the splash, fed the same events on
    its own, has not invoked [onDone]; and then the two are the same. *)
Lemma follows (disk : gmap string string) (es : list App.Event) :
  App.showSplash (App.run es (App.start disk))
  = Nat.eqb (onDoneCount (run (App.alone es) (mount disk))) 0
  /\ (onDoneCount (run (App.alone es) (mount disk)) = 0 ->
      App.splash (App.run es (App.start disk))
      = run (App.alone es) (mount disk)).
Proof.
  destruct (run_agree es (mount disk) None eq_refl) as (Hz & Hp).
  change (App.mk true (mount disk) None) with (App.start disk) in *.
  destruct (Nat.eqb_spec (onDoneCount (run (App.alone es) (mount disk))) 0)
    as [E|E].
  - destruct (Hz E) as (p' & ->). split; [reflexivity|]. reflexivity.
  - split; [apply Hp; lia|]. intros H. contradiction.
Qed.

End AppPaths.

(** X14.  [App] adds nothing to the splash but the hand-over: fed the
    same storage settlements, presses and time, [showSplash] is on
    exactly as long as the splash mounted on its own has not invoked
    [onDone], and until then the splash under [App] is in the very
    state it would be in on its own; engine events change nothing of
    this. *)
Theorem app_follows_splash (disk : gmap string string) (es : list App.Event) :
  let a := App.run es (App.start disk) in
  let s := run (App.alone es) (mount disk) in
  App.showSplash a = Nat.eqb (onDoneCount s) 0
  /\ (if App.showSplash a then App.splash a = s else 0 < onDoneCount s).
Proof.
  cbv zeta. destruct (AppPaths.follows disk es) as (H1 & H2).
  split; [exact H1|]. rewrite H1.
  destruct (Nat.eqb_spec (onDoneCount (run (App.alone es) (mount disk))) 0)
    as [E|E]; [apply H2, E|lia].
Qed.

(** X15.  When the browser pane comes up.  Under [App], whatever else
    happens: a rejected read brings it up at once; with a truthy value
    stored it is up exactly when 3000 ms have passed since the read
    resolved; with nothing truthy stored and the write resolved it is
    up exactly when the control has been pressed on the last entry. *)
Theorem app_handover_time (disk : gmap string string) (es : list App.Event) :
  App.showSplash (App.run (App.Reject :: es) (App.start disk)) = false
  /\ (truthy (disk !! key) = true ->
      App.showSplash (App.run (App.Resolve :: es) (App.start disk))
      = negb (3000 <=? elapsed (App.alone es))%N)
  /\ (truthy (disk !! key) = false ->
      App.showSplash
        (App.run (App.Resolve :: App.Resolve :: es) (App.start disk))
      = Nat.eqb
          (finalPresses (App.alone es) (run [Resolve; Resolve] (mount disk)))
          0).
Proof.
  split; [|split].
  - destruct (AppPaths.follows disk (App.Reject :: es)) as (-> & _).
    change (App.alone (App.Reject :: es)) with (Reject :: App.alone es).
    rewrite (SplashPaths.failure_count (mount disk) (App.alone es));
      try reflexivity. discriminate.
  - intros H.
    destruct (AppPaths.follows disk (App.Resolve :: es)) as (-> & _).
    change (App.alone (App.Resolve :: es)) with (Resolve :: App.alone es).
    destruct (SplashPaths.returning_state disk 0 H)
      as (Hoff & Hah & Hc & Hn & Htm).
    change (run (Resolve :: App.alone es) (mount disk))
      with (run (App.alone es) (run [Elapse 0; Resolve] (mount disk))).
    rewrite (SplashFacts.off_run_count _ _ Hoff Hah), Hc, Hn, Htm.
    rewrite SplashPaths.timer_dueCalls.
    destruct (3000 <=? elapsed (App.alone es))%N; reflexivity.
  - intros H.
    destruct (AppPaths.follows disk (App.Resolve :: App.Resolve :: es))
      as (-> & _).
    change (App.alone (App.Resolve :: App.Resolve :: es))
      with (Resolve :: Resolve :: App.alone es).
    change (run (Resolve :: Resolve :: App.alone es) (mount disk))
      with (run (App.alone es) (run [Resolve; Resolve] (mount disk))).
    destruct (SplashPaths.interactive_state disk H) as (Hc & Hb).
    pose proof (SplashFacts.run_bounds (App.alone es)
                  (run [Resolve; Resolve] (mount disk))) as (Hlo & Hhi).
    f_equal. lia.
Qed.

Lemma app_handover_time_witness :
  App.showSplash
    (App.run (App.Resolve
              :: [App.Elapse 2999; App.Press; App.Engine Pane.LoadEnd;
                  App.Elapse 1])
             (App.start visited)) = negb true
  /\ App.showSplash
       (App.run (App.Resolve :: App.Resolve
                 :: [App.Press; App.Elapse 600; App.Press; App.Elapse 600])
                (App.start ∅))
     = Nat.eqb 0 0.
Proof.
  split.
  - refine (proj1 (proj2 (app_handover_time visited
              [App.Elapse 2999; App.Press; App.Engine Pane.LoadEnd;
               App.Elapse 1])) _).
    reflexivity.
  - refine (proj2 (proj2 (app_handover_time ∅
              [App.Press; App.Elapse 600; App.Press; App.Elapse 600])) _).
    reflexivity.
Defined.
